(** * behave-testrail-reporter: a shallow embedding of [testrail_reporter.py]

    The development follows the Python module top to bottom:
    [format_summary], [TestrailProject], then the methods of
    [TestrailReporter].  Python dictionaries are [gmap]s, Python integers
    are [Z], Python (byte) strings are [string], and a method that mutates
    the reporter is a function in a state-and-exception monad whose state
    is the reporter object together with the trace of the requests made
    through the TestRail client. *)

From Stdlib Require Import QArith Ascii.
From stdpp Require Import gmap strings list fin_maps pretty.

Open Scope string_scope.
Open Scope Z_scope.

(** ** Exceptions and results *)

(** The exceptions the module can let escape.  [PatternNotModelled] is not
    a Python exception: it marks a regular expression that uses syntax
    outside the fragment of [re] embedded below. *)
Inductive exn : Type :=
  | KeyError (key : string)
  | TypeError (msg : string)
  | re_error (msg : string)
  | ServiceError (msg : string)
  | Exception (msg : string)
  | PatternNotModelled.

Inductive res (A : Type) : Type :=
  | Ok (a : A)
  | Raise (e : exn).
Arguments Ok {A} a.
Arguments Raise {A} e.

Definition res_bind {A B} (r : res A) (k : A → res B) : res B :=
  match r with
  | Ok a => k a
  | Raise e => Raise e
  end.

#[global] Instance res_ret : MRet res := λ A a, Ok a.
#[global] Instance res_mbind : MBind res := λ A B k r, res_bind r k.

(** ** [behave.model_core.Status] *)

Module Status.

Inductive t : Type :=
  | untested | skipped | passed | failed | undefined | executing.

#[global] Instance eq_dec : EqDecision t.
Proof. solve_decision. Defined.

Definition name (s : t) : string :=
  match s with
  | untested => "untested"
  | skipped => "skipped"
  | passed => "passed"
  | failed => "failed"
  | undefined => "undefined"
  | executing => "executing"
  end.

End Status.

(** ** Module-level constants and [format_summary] *)

Definition optional_steps : list Status.t := [Status.untested].

Definition status_order : list Status.t :=
  [Status.passed; Status.failed; Status.skipped;
   Status.undefined; Status.untested].

(** One iteration of the [for status in status_order] loop: [parts] is the
    list built so far. *)
Definition format_summary_step (statement_type : string)
    (summary : gmap string Z) (parts : list string) (status : Status.t)
    : list string :=
  match summary !! Status.name status with
  | None => parts
  | Some counts =>
      if bool_decide (status ∈ optional_steps) && (counts =? 0) then parts
      else if bool_decide (parts = []) then
        let label :=
          if negb (counts =? 1) then statement_type +:+ "s"
          else statement_type in
        (parts ++
           [pretty counts +:+ " " +:+ label +:+ " " +:+ Status.name status])%list
      else
        (parts ++ [pretty counts +:+ " " +:+ Status.name status])%list
  end.

Definition format_summary (statement_type : string)
    (summary : gmap string Z) : string :=
  String.concat ", "
    (fold_left (format_summary_step statement_type summary) status_order []).

(** *** The rendering as the specification words it *)

(** The categories that are shown, in the fixed order, with their counts:
    a category missing from the mapping is left out, and so is [untested]
    when its count is zero. *)
Definition shown_categories (order : list Status.t)
    (summary : gmap string Z) : list (Status.t * Z) :=
  omap (λ s,
          match summary !! Status.name s with
          | None => None
          | Some n =>
              if bool_decide (s = Status.untested) && (n =? 0) then None
              else Some (s, n)
          end) order.

Definition first_item (label : string) (item : Status.t * Z) : string :=
  pretty item.2 +:+ " " +:+
  (if bool_decide (item.2 ≠ 1) then label +:+ "s" else label) +:+ " " +:+
  Status.name item.1.

Definition later_item (item : Status.t * Z) : string :=
  pretty item.2 +:+ " " +:+ Status.name item.1.

Definition render_items (label : string) (items : list (Status.t * Z))
    : list string :=
  match items with
  | [] => []
  | item :: rest => first_item label item :: map later_item rest
  end.

Definition format_summary_spec (label : string) (summary : gmap string Z)
    : string :=
  String.concat ", "
    (render_items label
       (shown_categories
          [Status.passed; Status.failed; Status.skipped;
           Status.undefined; Status.untested] summary)).

(** ** The fragment of Python's [re] that branch patterns are read in

    [re.match(pattern, string)] is library code.  It is embedded for the
    patterns built from literal characters, [.], the postfix operators
    [*], [+] and [?] on an atom that cannot match the empty string,
    alternation [|] and groups [( )].  For these, [re] either raises
    [re.error] while compiling the pattern or returns a match object
    exactly when some prefix of the string is a word of the pattern.  A
    pattern that uses anything else (escapes, character classes, counted
    repeats, anchors, [(?...)] extensions, a repeat applied to a repeat or
    to an atom that can match the empty string) is answered with
    [PatternNotModelled]. *)

Module re.
#[local] Open Scope list_scope.

Inductive regex : Type :=
  | Never
  | Epsilon
  | Char (c : ascii)
  | AnyChar
  | Seq (r1 r2 : regex)
  | Alt (r1 r2 : regex)
  | Star (r : regex).

Definition newline : ascii := "010"%char.

(** [matches r s]: the whole of [s] is a word of [r]. *)
Inductive matches : regex → list ascii → Prop :=
  | matches_epsilon : matches Epsilon []
  | matches_char c : matches (Char c) [c]
  | matches_any c : c ≠ newline → matches AnyChar [c]
  | matches_seq r1 r2 s1 s2 :
      matches r1 s1 → matches r2 s2 → matches (Seq r1 r2) (s1 ++ s2)
  | matches_alt_l r1 r2 s : matches r1 s → matches (Alt r1 r2) s
  | matches_alt_r r1 r2 s : matches r2 s → matches (Alt r1 r2) s
  | matches_star_done r : matches (Star r) []
  | matches_star_more r s1 s2 :
      matches r s1 → matches (Star r) s2 → matches (Star r) (s1 ++ s2).

Fixpoint nullable (r : regex) : bool :=
  match r with
  | Never | Char _ | AnyChar => false
  | Epsilon | Star _ => true
  | Seq r1 r2 => nullable r1 && nullable r2
  | Alt r1 r2 => nullable r1 || nullable r2
  end.

Fixpoint deriv (c : ascii) (r : regex) : regex :=
  match r with
  | Never | Epsilon => Never
  | Char d => if bool_decide (c = d) then Epsilon else Never
  | AnyChar => if bool_decide (c = newline) then Never else Epsilon
  | Seq r1 r2 =>
      if nullable r1 then Alt (Seq (deriv c r1) r2) (deriv c r2)
      else Seq (deriv c r1) r2
  | Alt r1 r2 => Alt (deriv c r1) (deriv c r2)
  | Star r1 => Seq (deriv c r1) (Star r1)
  end.

Fixpoint matches_prefix (r : regex) (s : list ascii) : bool :=
  nullable r ||
  match s with
  | [] => false
  | c :: s' => matches_prefix (deriv c r) s'
  end.

Inductive last_item : Type :=
  | at_start | after_open | after_bar | after_atom | after_repeat.

Record frame : Type := { alts : list regex; items : list regex }.

Record parser : Type :=
  { stack : list frame; cur : frame; last : last_item }.

Definition frame_regex (f : frame) : regex :=
  foldr Alt (foldr Seq Epsilon (rev (items f))) (rev (alts f)).

Definition push_atom (p : parser) (r : regex) : parser :=
  {| stack := stack p;
     cur := {| alts := alts (cur p); items := r :: items (cur p) |};
     last := after_atom |}.

Definition repeat_of (c : ascii) (r : regex) : regex :=
  if bool_decide (c = "*"%char) then Star r
  else if bool_decide (c = "+"%char) then Seq r (Star r)
  else Alt r Epsilon.

Definition parse_repeat (p : parser) (c : ascii) : res parser :=
  match last p, items (cur p) with
  | after_atom, r :: rest =>
      if nullable r then Raise PatternNotModelled
      else Ok {| stack := stack p;
                 cur := {| alts := alts (cur p);
                           items := repeat_of c r :: rest |};
                 last := after_repeat |}
  | after_atom, [] => Raise PatternNotModelled
  | after_repeat, _ => Raise PatternNotModelled
  | after_open, _ =>
      if bool_decide (c = "?"%char) then Raise PatternNotModelled
      else Raise (re_error "nothing to repeat")
  | at_start, _ | after_bar, _ => Raise (re_error "nothing to repeat")
  end.

Definition unsupported : list ascii :=
  ["\"; "["; "]"; "{"; "}"; "^"; "$"]%char.

Definition parse_char (p : parser) (c : ascii) : res parser :=
  if bool_decide (c = "("%char) then
    Ok {| stack := cur p :: stack p;
          cur := {| alts := []; items := [] |};
          last := after_open |}
  else if bool_decide (c = ")"%char) then
    match stack p with
    | [] => Raise (re_error "unbalanced parenthesis")
    | f :: st =>
        Ok {| stack := st;
              cur := {| alts := alts f;
                        items := frame_regex (cur p) :: items f |};
              last := after_atom |}
    end
  else if bool_decide (c = "|"%char) then
    Ok {| stack := stack p;
          cur := {| alts := foldr Seq Epsilon (rev (items (cur p)))
                            :: alts (cur p);
                    items := [] |};
          last := after_bar |}
  else if bool_decide (c ∈ ["*"; "+"; "?"]%char) then parse_repeat p c
  else if bool_decide (c = "."%char) then Ok (push_atom p AnyChar)
  else if bool_decide (c ∈ unsupported) then Raise PatternNotModelled
  else Ok (push_atom p (Char c)).

Fixpoint parse_chars (p : parser) (s : list ascii) : res parser :=
  match s with
  | [] => Ok p
  | c :: s' => res_bind (parse_char p c) (λ p', parse_chars p' s')
  end.

Definition compile (pattern : string) : res regex :=
  res_bind
    (parse_chars {| stack := []; cur := {| alts := []; items := [] |};
                    last := at_start |}
       (String.list_ascii_of_string pattern))
    (λ p, match stack p with
          | [] => Ok (frame_regex (cur p))
          | _ :: _ => Raise (re_error "missing ), unterminated subpattern")
          end).

Definition match_ (pattern string : string) : res bool :=
  res_bind (compile pattern)
    (λ r, Ok (matches_prefix r (String.list_ascii_of_string string))).

End re.

(** ** What behave hands to the reporter *)

(** A step of a scenario: [step.keyword], [step.name], [step.status] (the
    status as the text that [format] prints). *)
Module Step.
Record t : Type := { keyword : string; name : string; status : string }.
End Step.

(** A scenario: [feature_tags] is [scenario.feature.tags]; [status] is the
    key looked up in [STATUS_MAPS]; [duration] is in seconds. *)
Module Scenario.
Record t : Type := {
  name : string;
  tags : list string;
  feature_tags : list string;
  status : string;
  duration : Q;
  steps : list Step.t }.
End Scenario.

(** An item of a feature: a plain scenario, or a scenario outline with the
    scenarios it expands to ([scenario_outline.scenarios]). *)
Inductive feature_item : Type :=
  | PlainScenario (scenario : Scenario.t)
  | ScenarioOutline (scenarios : list Scenario.t).

Record Feature : Type := {
  feature_duration : Q;
  feature_items : list feature_item }.

(** ** The TestRail client ([api.APIClient]) *)

(** A run as the client returns it: only [run['id']] is read. *)
Record run : Type := { run_id : Z }.

(** A case record as [get_cases] returns it: only [case['id']] is read. *)
Record testcase : Type := { testcase_id : Z }.

(** The requests the reporter sends through the client. *)
Inductive call : Type :=
  | get_run_for_branch_call (project_id : Z) (branch_name : string)
  | create_run_call (project_id suite_id : Z) (run_name : string)
  | get_cases_call (project_id suite_id : Z)
  | create_result_call (run : Z) (case_id : string) (status : Z)
      (comment elapsed : string).

#[global] Instance call_eq_dec : EqDecision call.
Proof. solve_decision. Defined.

(** The client class lives in [api.py], which is not among the sources,
    and talks to a remote service: it is a parameter of the development.
    Its methods take the arguments that [testrail_reporter.py] passes and
    return what the external interface of the specification says (a run
    or nothing, a run, a list of case records, a success flag).  Each
    method answers from the requests sent before it, which lets a service
    change its answers over time, and may raise. *)
Record APIClient : Type := {
  get_run_for_branch : list call → Z → string → res (option run);
  create_run : list call → Z → Z → string → res run;
  get_cases : list call → Z → Z → res (list testcase);
  create_result :
    list call → Z → string → Z → string → string → res bool }.

(** ** [TestrailProject] *)

Module TestrailProject.

Record t : Type := {
  id : Z;
  name : string;
  suite_id : Z;
  test_run_name : string;
  allowed_branch_pattern : string;
  test_run : option run;
  cases : gmap string testcase }.

(** The defaults of [__init__]'s keyword arguments. *)
Definition default_test_run_name : string := "".
Definition default_allowed_branch_pattern : string := "*".

Definition init (id : Z) (name : string) (suite_id : Z)
    (test_run_name allowed_branch_pattern : string) : t :=
  {| id := id; name := name; suite_id := suite_id;
     test_run_name := test_run_name;
     allowed_branch_pattern := allowed_branch_pattern;
     test_run := None; cases := ∅ |}.

(** [project.test_run = r] *)
Definition set_test_run (r : option run) (p : t) : t :=
  {| id := id p; name := name p; suite_id := suite_id p;
     test_run_name := test_run_name p;
     allowed_branch_pattern := allowed_branch_pattern p;
     test_run := r; cases := cases p |}.

(** [project.cases = m] *)
Definition set_cases (m : gmap string testcase) (p : t) : t :=
  {| id := id p; name := name p; suite_id := suite_id p;
     test_run_name := test_run_name p;
     allowed_branch_pattern := allowed_branch_pattern p;
     test_run := test_run p; cases := m |}.

End TestrailProject.

(** ** [TestrailReporter] *)

Definition STATUS_PASSED : Z := 1.
Definition STATUS_BLOCKED : Z := 2.
Definition STATUS_UNTESTED : Z := 3.
Definition STATUS_RETEST : Z := 4.
Definition STATUS_FAILED : Z := 5.

Definition CASE_TAG_PREFIX : string := "testrail-C".

(** map Behave to Testrail test result status *)
Definition STATUS_MAPS : gmap string Z :=
  <["passed" := STATUS_PASSED]>
    (<["failed" := STATUS_FAILED]>
       (<["skipped" := STATUS_UNTESTED]>
          (<["undefined" := STATUS_UNTESTED]>
             (<["executing" := STATUS_UNTESTED]>
                (<["untested" := STATUS_UNTESTED]> ∅))))).

(** [d[key]] on a dictionary: a missing key raises [KeyError]. *)
Definition getitem {V} (d : gmap string V) (key : string) : res V :=
  match d !! key with
  | Some v => Ok v
  | None => Raise (KeyError key)
  end.

(** The reporter object.  [calls] is not a Python attribute: it is the
    trace, oldest first, of the requests sent through
    [self.testrail_client]. *)
Record TestrailReporter : Type := {
  branch_name : string;
  projects : list TestrailProject.t;
  case_summary : gmap string Z;
  failed_cases : list string;
  duration : Q;
  calls : list call }.

Definition set_projects (ps : list TestrailProject.t) (st : TestrailReporter)
    : TestrailReporter :=
  {| branch_name := branch_name st; projects := ps;
     case_summary := case_summary st; failed_cases := failed_cases st;
     duration := duration st; calls := calls st |}.

Definition set_case_summary (m : gmap string Z) (st : TestrailReporter)
    : TestrailReporter :=
  {| branch_name := branch_name st; projects := projects st;
     case_summary := m; failed_cases := failed_cases st;
     duration := duration st; calls := calls st |}.

Definition set_failed_cases (l : list string) (st : TestrailReporter)
    : TestrailReporter :=
  {| branch_name := branch_name st; projects := projects st;
     case_summary := case_summary st; failed_cases := l;
     duration := duration st; calls := calls st |}.

Definition set_duration (d : Q) (st : TestrailReporter) : TestrailReporter :=
  {| branch_name := branch_name st; projects := projects st;
     case_summary := case_summary st; failed_cases := failed_cases st;
     duration := d; calls := calls st |}.

Definition set_calls (l : list call) (st : TestrailReporter)
    : TestrailReporter :=
  {| branch_name := branch_name st; projects := projects st;
     case_summary := case_summary st; failed_cases := failed_cases st;
     duration := duration st; calls := l |}.

(** *** Methods as state transformers that may raise

    A method takes the reporter before the call and gives the reporter
    after it together with the value returned or the exception raised: an
    exception keeps what was mutated before it. *)
Definition M (A : Type) : Type := TestrailReporter → TestrailReporter * res A.

Definition M_ret {A} (a : A) : M A := λ st, (st, Ok a).

Definition M_bind {A B} (m : M A) (k : A → M B) : M B :=
  λ st, match m st with
        | (st', Ok a) => k a st'
        | (st', Raise e) => (st', Raise e)
        end.

#[global] Instance M_mret : MRet M := @M_ret.
#[global] Instance M_mbind : MBind M := λ A B k m, M_bind m k.

(** A pure computation that may raise, run inside a method. *)
Definition lift {A} (r : res A) : M A := λ st, (st, r).

(** Read an attribute of [self]. *)
Definition self {A} (attr : TestrailReporter → A) : M A :=
  λ st, (st, Ok (attr st)).

(** Send a request: it is appended to the trace, and the client answers
    from the requests sent before it. *)
Definition request {A} (c : call) (answer : list call → res A) : M A :=
  λ st, (set_calls (calls st ++ [c])%list st, answer (calls st)).

(** The [i]-th project object of [self.projects] is now [p]. *)
Definition store_project (i : nat) (p : TestrailProject.t) : M unit :=
  λ st, (set_projects (<[i := p]> (projects st)) st, Ok tt).

(** [self.case_summary[key] += 1] *)
Definition increment (key : string) : M unit :=
  λ st, match case_summary st !! key with
        | Some n =>
            (set_case_summary (<[key := n + 1]> (case_summary st)) st, Ok tt)
        | None => (st, Raise (KeyError key))
        end.

(** [self.failed_cases.append(case_id)] *)
Definition append_failed_case (case_id : string) : M unit :=
  λ st, (set_failed_cases (failed_cases st ++ [case_id])%list st, Ok tt).

(** A [for x in l: body(x)] loop. *)
Fixpoint for_each {A} (body : A → M unit) (l : list A) : M unit :=
  match l with
  | [] => mret tt
  | x :: l' => body x;; for_each body l'
  end.

(** A loop over [self.projects]: the body gets the position of the project
    object along with the object. *)
Fixpoint for_each_project (body : nat → TestrailProject.t → M unit)
    (i : nat) (ps : list TestrailProject.t) : M unit :=
  match ps with
  | [] => mret tt
  | p :: ps' => body i p;; for_each_project body (S i) ps'
  end.

(** *** Construction *)

Record project_config : Type := {
  config_id : Z;
  config_name : string;
  config_suite_id : Z;
  config_allowed_branch_pattern : string }.

Definition _load_projects_from_config (projects_config : list project_config)
    : res (list TestrailProject.t) :=
  if bool_decide (length projects_config = 0%nat) then
    Raise (Exception
      "Your testrail.yml config file does not have any project configured!")
  else
    Ok (map (λ c, TestrailProject.init (config_id c) (config_name c)
                    (config_suite_id c)
                    TestrailProject.default_test_run_name
                    (config_allowed_branch_pattern c))
          projects_config).

(** [__init__], with the projects read from the configuration file. *)
Definition init (branch : string) (projects_config : list project_config)
    : res TestrailReporter :=
  ps ← _load_projects_from_config projects_config;
  Ok {| branch_name := branch;
        projects := ps;
        case_summary :=
          <[Status.name Status.passed := 0]>
            (<[Status.name Status.failed := 0]>
               (<[Status.name Status.skipped := 0]>
                  (<[Status.name Status.untested := 0]> ∅)));
        failed_cases := [];
        duration := 0%Q;
        calls := [] |}.

(** *** Branch policy *)

(** [bool(re.match(pattern, branch_name))]: a match object is true, [None]
    is false, and an exception of [re] propagates. *)
Definition _can_generate_test_run_for_branch
    (testrail_project : TestrailProject.t) (branch : string) : res bool :=
  re.match_ (TestrailProject.allowed_branch_pattern testrail_project) branch.

(** *** The comment of a result *)

Definition nl : string := String "010"%char "".

Definition step_line (step : Step.t) : string :=
  "->  " +:+ Step.keyword step +:+ " " +:+ Step.name step +:+
  " [" +:+ Step.status step +:+ "]".

Definition _buid_comment_for_scenario (scenario : Scenario.t) : string :=
  (Scenario.name scenario +:+ nl) +:+
  String.concat nl (map step_line (Scenario.steps scenario)).

(** [int(x)] on a number of seconds: the fraction is dropped. *)
Definition int_of (x : Q) : Z := Z.quot (Qnum x) (Z.pos (Qden x)).

(** [tag[n:]] *)
Definition string_from (n : nat) (s : string) : string :=
  String.substring n (String.length s - n) s.

Section methods.
Context (api : APIClient).

(** *** Runs and cases *)

Definition setup_test_run (i : nat) (testrail_project : TestrailProject.t)
    : M TestrailProject.t :=
  branch ← self branch_name;
  found ← request
    (get_run_for_branch_call (TestrailProject.id testrail_project) branch)
    (λ sent, get_run_for_branch api sent
               (TestrailProject.id testrail_project) branch);
  let p1 := TestrailProject.set_test_run found testrail_project in
  store_project i p1;;
  match found with
  | Some _ => mret p1
  | None =>
      let test_run_name := branch in
      created ← request
        (create_run_call (TestrailProject.id testrail_project)
           (TestrailProject.suite_id testrail_project) test_run_name)
        (λ sent, create_run api sent
                   (TestrailProject.id testrail_project)
                   (TestrailProject.suite_id testrail_project) test_run_name);
      let p2 := TestrailProject.set_test_run (Some created) p1 in
      store_project i p2;;
      mret p2
  end.

(** [{str(case['id']): case for case in cases}]: a later record with the
    same id replaces an earlier one. *)
Definition cases_by_id (l : list testcase) : gmap string testcase :=
  fold_left (λ m c, <[pretty (testcase_id c) := c]> m) l ∅.

Definition _load_test_cases_for_project (i : nat) (project : TestrailProject.t)
    : M TestrailProject.t :=
  l ← request
    (get_cases_call (TestrailProject.id project)
       (TestrailProject.suite_id project))
    (λ sent, get_cases api sent (TestrailProject.id project)
               (TestrailProject.suite_id project));
  let p1 := TestrailProject.set_cases (cases_by_id l) project in
  store_project i p1;;
  mret p1.

Definition _add_test_result (i : nat) (project : TestrailProject.t)
    (case_id : string) (status : Z) (comment elapsed : string) : M bool :=
  p ← (if bool_decide (TestrailProject.test_run project = None)
       then setup_test_run i project else mret project);
  match TestrailProject.test_run p with
  | Some r =>
      request (create_result_call (run_id r) case_id status comment elapsed)
        (λ sent, create_result api sent (run_id r) case_id status
                   comment elapsed)
  | None => lift (Raise (TypeError "'NoneType' object is not subscriptable"))
  end.

(** *** [process_scenario] *)

(** The head of the body of the loop over the projects
    ([if not testrail_project.cases: ...]): the cases are fetched when the
    [cases] dictionary of the project is empty. *)
Definition with_cases (i : nat) (testrail_project : TestrailProject.t)
    : M TestrailProject.t :=
  if bool_decide (TestrailProject.cases testrail_project = ∅)
  then _load_test_cases_for_project i testrail_project
  else mret testrail_project.

(** The rest of the body of the loop over the projects
    ([if case_id in testrail_project.cases: ... else: ...]). *)
Definition report_case (scenario : Scenario.t) (case_id : string)
    (i : nat) (testrail_project : TestrailProject.t) : M unit :=
  if bool_decide (is_Some (TestrailProject.cases testrail_project !! case_id))
  then
    testrail_status ← lift (getitem STATUS_MAPS (Scenario.status scenario));
    if bool_decide (testrail_status = STATUS_UNTESTED) then
      increment (Status.name Status.skipped)
    else
      branch ← self branch_name;
      allowed ← lift (_can_generate_test_run_for_branch testrail_project branch);
      if negb allowed then
        increment (Status.name Status.skipped)
      else
        let comment := _buid_comment_for_scenario scenario in
        is_added ← _add_test_result i testrail_project case_id testrail_status
                     comment
                     (pretty (int_of (Scenario.duration scenario)) +:+ "s");
        if is_added : bool then increment (Status.name Status.passed)
        else append_failed_case case_id
  else
    increment (Status.name Status.untested).

(** The whole body of the loop over the projects. *)
Definition process_case (scenario : Scenario.t) (case_id : string)
    (i : nat) (testrail_project : TestrailProject.t) : M unit :=
  p ← with_cases i testrail_project;
  report_case scenario case_id i p.

(** The body of the loop over the tags. *)
Definition process_tag (scenario : Scenario.t) (tag : string) : M unit :=
  if String.prefix CASE_TAG_PREFIX tag then
    let case_id := string_from (String.length CASE_TAG_PREFIX) tag in
    ps ← self projects;
    for_each_project (process_case scenario case_id) 0 ps
  else mret tt.

Definition process_scenario (scenario : Scenario.t) : M unit :=
  for_each (process_tag scenario)
    (Scenario.tags scenario ++ Scenario.feature_tags scenario)%list.

Definition process_scenario_outline (scenarios : list Scenario.t) : M unit :=
  for_each process_scenario scenarios.

Definition feature (f : Feature) : M unit :=
  (λ st, (set_duration (duration st + feature_duration f)%Q st, Ok tt));;
  for_each (λ item, match item with
                    | ScenarioOutline scenarios =>
                        process_scenario_outline scenarios
                    | PlainScenario scenario => process_scenario scenario
                    end)
    (feature_items f).

End methods.

(** ** Definitions used to state the properties *)

(** The statuses of the engine ([behave.model_core.Status]), by name. *)
Definition engine_statuses : list string :=
  ["passed"; "failed"; "skipped"; "undefined"; "executing"; "untested"].

(** [s.split('\n')] *)
Fixpoint split_lines (s : string) : list string :=
  match s with
  | "" => [""]
  | String c s' =>
      if bool_decide (c = re.newline) then "" :: split_lines s'
      else match split_lines s' with
           | l :: ls => String c l :: ls
           | [] => [String c ""]
           end
  end.

Fixpoint one_line (s : string) : bool :=
  match s with
  | "" => true
  | String c s' => negb (bool_decide (c = re.newline)) && one_line s'
  end.

(** The line of a step as the specification words it. *)
Definition step_line_as_specified (step : Step.t) : string :=
  "-> " +:+ Step.keyword step +:+ " " +:+ Step.name step +:+
  " [" +:+ Step.status step +:+ "]".

(** The line of a step as the code prints it: the arrow is followed by two
    spaces. *)
Definition step_line_two_spaces (step : Step.t) : string :=
  "->  " +:+ Step.keyword step +:+ " " +:+ Step.name step +:+
  " [" +:+ Step.status step +:+ "]".

Definition one_line_step (step : Step.t) : bool :=
  one_line (Step.keyword step) && one_line (Step.name step) &&
  one_line (Step.status step).

(** *** The outcomes of a (scenario, case tag, project) triple *)

Inductive outcome : Type :=
  | submitted
  | skipped_by_policy
  | skipped_untested_status
  | not_matched.

Definition is_case_load (c : call) : Prop :=
  match c with get_cases_call _ _ => True | _ => False end.

Definition is_run_setup (c : call) : Prop :=
  match c with
  | get_run_for_branch_call _ _ | create_run_call _ _ _ => True
  | _ => False
  end.

(** [st'] is [st] with the counter [key] of the summary raised by one. *)
Definition counted (key : string) (st st' : TestrailReporter) : Prop :=
  ∃ n, case_summary st !! key = Some n ∧
       st' = set_case_summary (<[key := n + 1]> (case_summary st)) st.

(** The value of a counter of the summary. *)
Definition count_of (key : string) (st : TestrailReporter) : Z :=
  default 0 (case_summary st !! key).

(** How many outcomes the reporter has recorded: the three counters it
    raises, and the cases whose submission failed. *)
Definition outcomes_recorded (st : TestrailReporter) : Z :=
  count_of "passed" st + count_of "skipped" st + count_of "untested" st +
  Z.of_nat (length (failed_cases st)).

(** [recorded o scenario case_id p st st']: going from [st] to [st'], the
    reporter recorded the outcome [o] for the case [case_id] of
    [scenario] in the project [p], whose cases are loaded. *)
Definition recorded (o : outcome) (scenario : Scenario.t) (case_id : string)
    (p : TestrailProject.t) (st st' : TestrailReporter) : Prop :=
  match o with
  | not_matched =>
      TestrailProject.cases p !! case_id = None ∧ counted "untested" st st'
  | skipped_untested_status =>
      is_Some (TestrailProject.cases p !! case_id) ∧
      getitem STATUS_MAPS (Scenario.status scenario) = Ok STATUS_UNTESTED ∧
      counted "skipped" st st'
  | skipped_by_policy =>
      is_Some (TestrailProject.cases p !! case_id) ∧
      (∃ code, getitem STATUS_MAPS (Scenario.status scenario) = Ok code ∧
               code ≠ STATUS_UNTESTED) ∧
      _can_generate_test_run_for_branch p (branch_name st) = Ok false ∧
      counted "skipped" st st'
  | submitted =>
      is_Some (TestrailProject.cases p !! case_id) ∧
      ∃ code, getitem STATUS_MAPS (Scenario.status scenario) = Ok code ∧
        code ≠ STATUS_UNTESTED ∧
        _can_generate_test_run_for_branch p (branch_name st) = Ok true ∧
        ∃ run_id setup st2,
          calls st2 =
            (calls st ++ setup ++
             [create_result_call run_id case_id code
                (_buid_comment_for_scenario scenario)
                (pretty (int_of (Scenario.duration scenario)) +:+ "s")])%list ∧
          Forall is_run_setup setup ∧
          case_summary st2 = case_summary st ∧
          failed_cases st2 = failed_cases st ∧
          (counted "passed" st2 st' ∨
           st' = set_failed_cases (failed_cases st2 ++ [case_id])%list st2)
  end.

(** From [st] to [st'] the only requests sent were fetches of cases, and
    neither the passed counter nor the failed cases changed. *)
Definition nothing_submitted (st st' : TestrailReporter) : Prop :=
  (∃ new, calls st' = (calls st ++ new)%list ∧ Forall is_case_load new) ∧
  failed_cases st' = failed_cases st ∧
  case_summary st' !! "passed" = case_summary st !! "passed".

(** *** Counting submissions *)

(** A project is open for submissions from [branch] when its cases are
    loaded and its branch pattern allows [branch]. *)
Definition open_for (branch : string) (p : TestrailProject.t) : Prop :=
  TestrailProject.cases p ≠ ∅ ∧
  _can_generate_test_run_for_branch p branch = Ok true.

(** The service answers the requests for runs and results. *)
Definition answers (api : APIClient) : Prop :=
  (∀ sent pid branch, ∃ found,
     get_run_for_branch api sent pid branch = Ok found) ∧
  (∀ sent pid sid run_name, ∃ created,
     create_run api sent pid sid run_name = Ok created) ∧
  (∀ sent run cid code comment elapsed, ∃ ok,
     create_result api sent run cid code comment elapsed = Ok ok).

(** What submissions read of a project apart from its run. *)
Definition cases_and_pattern (p : TestrailProject.t)
    : gmap string testcase * string :=
  (TestrailProject.cases p, TestrailProject.allowed_branch_pattern p).

Definition is_result_for (case_id : string) (c : call) : bool :=
  match c with
  | create_result_call _ cid _ _ _ => bool_decide (cid = case_id)
  | _ => false
  end.

(** The number of createResult requests for [case_id] in a trace. *)
Definition results_for (case_id : string) (l : list call) : nat :=
  length (List.filter (is_result_for case_id) l).

(** The number of projects whose cases hold [case_id]. *)
Definition holding (case_id : string) (ps : list TestrailProject.t) : nat :=
  length (List.filter
            (λ p, bool_decide (is_Some (TestrailProject.cases p !! case_id)))
            ps).

(** The tag that names the case [case_id]. *)
Definition case_tag (case_id : string) : string :=
  CASE_TAG_PREFIX +:+ case_id.

(** The number of submissions one occurrence of [tag] calls for. *)
Definition hits (ps : list TestrailProject.t) (tag : string) : nat :=
  if String.prefix CASE_TAG_PREFIX tag
  then holding (string_from (String.length CASE_TAG_PREFIX) tag) ps
  else 0%nat.

(** What the loops keep: the branch, and the presence of the two
    counters that are raised. *)
Definition steady (branch : string) (st : TestrailReporter) : Prop :=
  branch_name st = branch ∧
  is_Some (case_summary st !! "passed") ∧
  is_Some (case_summary st !! "untested").

(** The submissions recorded: results accepted and results refused. *)
Definition submitted_count (st : TestrailReporter) : Z :=
  count_of "passed" st + Z.of_nat (length (failed_cases st)).

(** *** Counting the requests that a project caches *)

(** The requests whose answer the reporter keeps in the project: the
    fetch of the cases, the lookup of the run and its creation. *)
Inductive request_kind : Type := case_fetch | run_lookup | run_creation.

(** [c] is a request of kind [k] for the project [pid]. *)
Definition is_request (k : request_kind) (pid : Z) (c : call) : bool :=
  match k, c with
  | case_fetch, get_cases_call p _ => bool_decide (p = pid)
  | run_lookup, get_run_for_branch_call p _ => bool_decide (p = pid)
  | run_creation, create_run_call p _ _ => bool_decide (p = pid)
  | _, _ => false
  end.

Definition requests (k : request_kind) (pid : Z) (l : list call) : nat :=
  length (List.filter (is_request k pid) l).

(** The project holds what a request of kind [k] brings. *)
Definition cached (k : request_kind) (p : TestrailProject.t) : bool :=
  match k with
  | case_fetch => negb (bool_decide (TestrailProject.cases p = ∅))
  | run_lookup | run_creation =>
      bool_decide (is_Some (TestrailProject.test_run p))
  end.

(** How many requests of kind [k] may have been sent for [p]: none while
    nothing is cached, one afterwards. *)
Definition allowance (k : request_kind) (p : TestrailProject.t) : nat :=
  if cached k p then 1%nat else 0%nat.

(** No suite of the service is empty. *)
Definition suites_nonempty (api : APIClient) : Prop :=
  ∀ sent pid sid l, get_cases api sent pid sid = Ok l → l ≠ [].

(** The fetch of the cases is only counted for a service without empty
    suites; the requests for the run are always counted. *)
Definition in_scope (api : APIClient) (k : request_kind) : Prop :=
  match k with
  | case_fetch => suites_nonempty api
  | run_lookup | run_creation => True
  end.

(** Every project has been sent at most [bound] requests of each kind. *)
Definition bounded (api : APIClient)
    (bound : request_kind → TestrailProject.t → nat)
    (st : TestrailReporter) : Prop :=
  NoDup (TestrailProject.id <$> projects st) ∧
  ∀ j q k, projects st !! j = Some q → in_scope api k →
    (requests k (TestrailProject.id q) (calls st) ≤ bound k q)%nat.

(** The invariant of a session: the trace agrees with what the projects
    cache. *)
Definition caches_consistent (api : APIClient) (st : TestrailReporter)
    : Prop :=
  bounded api allowance st.

(** No request of a counted kind was sent twice for a project. *)
Definition requested_at_most_once (api : APIClient) (st : TestrailReporter)
    : Prop :=
  bounded api (λ _ _, 1%nat) st.

(** [c] is no counted request, or one for the project [p]. *)
Definition concerns (p : TestrailProject.t) (c : call) : Prop :=
  ∀ k pid, is_request k pid c = true → pid = TestrailProject.id p.

(** What every part of the loop body guarantees, from a consistent state
    in which [p] is the project at position [i]. *)
Definition keeps_consistent (api : APIClient) (st : TestrailReporter) (i : nat)
    (p : TestrailProject.t) (out : TestrailReporter * res unit) : Prop :=
  requested_at_most_once api out.1 ∧
  (out.2 = Ok tt →
   caches_consistent api out.1 ∧
   ∃ p', projects out.1 = <[i := p']> (projects st) ∧
         TestrailProject.id p' = TestrailProject.id p).

(** ** A sample session, used to run the definitions *)

Definition sample_steps : list Step.t :=
  [ {| Step.keyword := "Given"; Step.name := "a registered user";
       Step.status := "passed" |};
    {| Step.keyword := "When"; Step.name := "the user logs in";
       Step.status := "passed" |} ].

Definition sample_scenario : Scenario.t :=
  {| Scenario.name := "Login";
     Scenario.tags := ["testrail-C100"; "smoke"];
     Scenario.feature_tags := ["web"];
     Scenario.status := "passed";
     Scenario.duration := (7 # 2)%Q;
     Scenario.steps := sample_steps |}.

(** A scenario that carries no case tag. *)
Definition untagged_scenario : Scenario.t :=
  {| Scenario.name := "Logout";
     Scenario.tags := ["smoke"; "testrail"];
     Scenario.feature_tags := ["web"];
     Scenario.status := "failed";
     Scenario.duration := 1%Q;
     Scenario.steps := sample_steps |}.

(** A client whose suite holds the cases 100 and 101, that knows no run
    and creates run 7, and that accepts every result. *)
Definition sample_client : APIClient :=
  {| get_run_for_branch := λ _ _ _, Ok None;
     create_run := λ _ _ _ _, Ok {| run_id := 7 |};
     get_cases := λ _ _ _,
       Ok [ {| testcase_id := 100 |}; {| testcase_id := 101 |} ];
     create_result := λ _ _ _ _ _ _, Ok true |}.

Definition sample_config : list project_config :=
  [ {| config_id := 1; config_name := "Web"; config_suite_id := 2;
       config_allowed_branch_pattern := "master|release/.*" |} ].

Definition sample_project : TestrailProject.t :=
  TestrailProject.init 1 "Web" 2 "" "master|release/.*".

(** The reporter that [__init__] builds from [sample_config] on branch
    [master]. *)
Definition sample_reporter : TestrailReporter :=
  {| branch_name := "master";
     projects := [sample_project];
     case_summary :=
       <["passed" := 0]> (<["failed" := 0]>
         (<["skipped" := 0]> (<["untested" := 0]> ∅)));
     failed_cases := [];
     duration := 0%Q;
     calls := [] |}.

(** A project whose branch pattern has an unbalanced parenthesis. *)
Definition unbalanced_pattern_project : TestrailProject.t :=
  TestrailProject.init 1 "Web" 2 "" "(master".

(** A project built with the default branch pattern of
    [TestrailProject.__init__]. *)
Definition default_pattern_project : TestrailProject.t :=
  TestrailProject.init 1 "Web" 2
    TestrailProject.default_test_run_name
    TestrailProject.default_allowed_branch_pattern.

(** [sample_project] once its cases are fetched from [sample_client]. *)
Definition loaded_project : TestrailProject.t :=
  TestrailProject.set_cases
    (cases_by_id [ {| testcase_id := 100 |}; {| testcase_id := 101 |} ])
    sample_project.

(** The same reporter on a branch that the pattern of [sample_project]
    does not allow, before and after the fetch of the cases. *)
Definition feature_branch_reporter : TestrailReporter :=
  {| branch_name := "feature/login";
     projects := [sample_project];
     case_summary := case_summary sample_reporter;
     failed_cases := [];
     duration := 0%Q;
     calls := [] |}.

Definition feature_branch_loaded : TestrailReporter :=
  set_projects [loaded_project]
    (set_calls [get_cases_call 1 2] feature_branch_reporter).

(** After the fetch of the cases on branch [master]. *)
Definition sample_loaded : TestrailReporter :=
  set_projects [loaded_project]
    (set_calls [get_cases_call 1 2] sample_reporter).

(** [sample_scenario] when behave skipped it. *)
Definition skipped_scenario : Scenario.t :=
  {| Scenario.name := "Login";
     Scenario.tags := ["testrail-C100"; "smoke"];
     Scenario.feature_tags := ["web"];
     Scenario.status := "skipped";
     Scenario.duration := 0%Q;
     Scenario.steps := sample_steps |}.

(** [sample_scenario] with a status that is none of the engine's. *)
Definition errored_scenario : Scenario.t :=
  {| Scenario.name := "Login";
     Scenario.tags := ["testrail-C100"; "smoke"];
     Scenario.feature_tags := ["web"];
     Scenario.status := "error";
     Scenario.duration := 0%Q;
     Scenario.steps := sample_steps |}.

(** A scenario that carries the tag of case 100 itself and inherits it
    from its feature as well. *)
Definition twice_tagged_scenario : Scenario.t :=
  {| Scenario.name := "Login";
     Scenario.tags := ["testrail-C100"];
     Scenario.feature_tags := ["testrail-C100"];
     Scenario.status := "passed";
     Scenario.duration := (7 # 2)%Q;
     Scenario.steps := sample_steps |}.

(** A client for a suite without cases. *)
Definition empty_suite_client : APIClient :=
  {| get_run_for_branch := λ _ _ _, Ok None;
     create_run := λ _ _ _ _, Ok {| run_id := 7 |};
     get_cases := λ _ _ _, Ok [];
     create_result := λ _ _ _ _ _ _, Ok true |}.

(** A client whose service is down. *)
Definition failing_client : APIClient :=
  {| get_run_for_branch := λ _ _ _, Raise (ServiceError "unreachable");
     create_run := λ _ _ _ _, Raise (ServiceError "unreachable");
     get_cases := λ _ _ _, Raise (ServiceError "unreachable");
     create_result := λ _ _ _ _ _ _, Raise (ServiceError "unreachable") |}.
(** ** Proofs about [format_summary] *)

Section format_summary_facts.
Context (label : string) (summary : gmap string Z).

Lemma first_item_label (s : Status.t) (n : Z) :
  first_item label (s, n)
  = pretty n +:+ " " +:+
    (if negb (n =? 1) then label +:+ "s" else label) +:+ " " +:+
    Status.name s.
Proof.
  unfold first_item; simpl.
  destruct (Z.eqb_spec n 1) as [->|Hn]; case_bool_decide; simpl; congruence.
Qed.

Lemma optional_steps_untested (s : Status.t) :
  bool_decide (s ∈ optional_steps) = bool_decide (s = Status.untested).
Proof.
  apply bool_decide_ext. unfold optional_steps.
  rewrite list_elem_of_singleton. done.
Qed.

(** What the loop appends to a non-empty [parts]. *)
Lemma format_summary_loop_later (order : list Status.t) (parts : list string) :
  parts ≠ [] →
  fold_left (format_summary_step label summary) order parts
  = (parts ++ map later_item (shown_categories order summary))%list.
Proof.
  revert parts. induction order as [|s order IH]; intros parts Hne; simpl.
  - by rewrite app_nil_r.
  - unfold format_summary_step at 2.
    rewrite optional_steps_untested.
    destruct (summary !! Status.name s) as [n|]; [|by apply IH].
    destruct (bool_decide (s = Status.untested) && (n =? 0)); [by apply IH|].
    rewrite bool_decide_eq_false_2 by done.
    rewrite IH by (by destruct parts).
    by rewrite <- app_assoc.
Qed.

(** What the loop builds from an empty [parts]. *)
Lemma format_summary_loop_first (order : list Status.t) :
  fold_left (format_summary_step label summary) order []
  = render_items label (shown_categories order summary).
Proof.
  induction order as [|s order IH]; simpl; [done|].
  unfold format_summary_step at 2.
  rewrite optional_steps_untested.
  destruct (summary !! Status.name s) as [n|]; [|by apply IH].
  destruct (bool_decide (s = Status.untested) && (n =? 0)); [by apply IH|].
  rewrite bool_decide_eq_true_2 by done.
  rewrite format_summary_loop_later by done.
  simpl. by rewrite first_item_label.
Qed.

End format_summary_facts.

(** C8.  [format_summary] renders a summary mapping exactly as described:
  the categories are visited in the order passed, failed, skipped,
  undefined, untested; a category that is not a key of the mapping is
  skipped; untested is dropped when its count is zero, every other
  present category is kept even at zero; the first kept item reads
  [<n> <label> <status>], the label getting an [s] exactly when the
  count is not 1, every later item reads [<n> <status>], and the items
  are joined with a comma and a space. *)
Theorem format_summary_as_specified (label : string) (summary : gmap string Z) :
format_summary label summary = format_summary_spec label summary.
Proof.
unfold format_summary, format_summary_spec.
by rewrite format_summary_loop_first.
Qed.

Example format_summary_initial :
format_summary "testrail test case"
  (<["passed" := 0]> (<["failed" := 0]>
     (<["skipped" := 0]> (<["untested" := 0]> ∅))))
= "0 testrail test cases passed, 0 failed, 0 skipped".
Proof. vm_compute. reflexivity. Qed.

Example format_summary_one_passed :
format_summary "testrail test case"
  (<["passed" := 1]> (<["untested" := 2]> ∅))
= "1 testrail test case passed, 2 untested".
Proof. vm_compute. reflexivity. Qed.

(** ** The matcher of the [re] fragment decides prefix membership *)

Module re_facts.
Import re.
#[local] Open Scope list_scope.

Section matcher_correct.

Lemma matches_nil_seq r1 r2 :
  matches (Seq r1 r2) [] → matches r1 [] ∧ matches r2 [].
Proof.
  inversion 1 as [| | |? ? s1 s2 H1 H2| | | |]; subst.
  by match goal with
     | E : _ ++ _ = [] |- _ => apply app_eq_nil in E as [-> ->]
     end.
Qed.

Lemma nullable_matches r : nullable r = true ↔ matches r [].
Proof.
  induction r as [| | | |r1 IH1 r2 IH2|r1 IH1 r2 IH2|r IH]; simpl.
  - split; [done | inversion 1].
  - split; [constructor | done].
  - split; [done | inversion 1].
  - split; [done | inversion 1].
  - rewrite andb_true_iff, IH1, IH2. split.
    + intros [H1 H2]. by apply (matches_seq _ _ [] []).
    + apply matches_nil_seq.
  - rewrite orb_true_iff, IH1, IH2. split.
    + intros [H|H]; [by apply matches_alt_l | by apply matches_alt_r].
    + inversion 1; subst; auto.
  - split; [constructor | done].
Qed.

(** A non-empty word of [Star r] starts with a non-empty word of [r]. *)
Lemma matches_star_cons r c s :
  matches (Star r) (c :: s) →
  ∃ s1 s2, s = s1 ++ s2 ∧ matches r (c :: s1) ∧ matches (Star r) s2.
Proof.
  intros H. remember (Star r) as r' eqn:Er. remember (c :: s) as w eqn:Ew.
  revert s Ew.
  induction H as [| | | | | | |r0 s1 s2 H1 _ H2 IH2]; intros w' Ew;
    try discriminate.
  injection Er as ->.
  destruct s1 as [|c1 s1]; simplify_eq/=.
  - by apply IH2.
  - by exists s1, s2.
Qed.

Lemma deriv_matches c r s : matches (deriv c r) s ↔ matches r (c :: s).
Proof.
  revert s.
  induction r as [| | d | |r1 IH1 r2 IH2|r1 IH1 r2 IH2|r IH]; intros s; simpl.
  - split; inversion 1.
  - split; inversion 1.
  - case_bool_decide as E; [subst d|].
    + split; inversion 1; subst; constructor.
    + split; inversion 1; subst; done.
  - case_bool_decide as E.
    + split; inversion 1; subst; done.
    + split; inversion 1; subst; by constructor.
  - assert (Hseq : matches (Seq (deriv c r1) r2) s →
                   matches (Seq r1 r2) (c :: s)).
    { inversion 1 as [| | |? ? s1 s2 H1 H2| | | |]; subst.
      apply IH1 in H1. by apply (matches_seq _ _ (c :: s1) s2). }
    assert (Hinv : matches (Seq r1 r2) (c :: s) →
                   matches (Seq (deriv c r1) r2) s ∨
                   (matches r1 [] ∧ matches r2 (c :: s))).
    { inversion 1 as [| | |? ? s1 s2 H1 H2| | | |]; subst.
      destruct s1 as [|c1 s1]; simplify_eq/=; [by right|].
      left. constructor; [by apply IH1 | done]. }
    destruct (nullable r1) eqn:N.
    + split.
      * inversion 1; subst; [by apply Hseq|].
        apply (matches_seq _ _ [] (c :: s));
          [by apply nullable_matches | by apply IH2].
      * intros H. destruct (Hinv H) as [H'|[_ H']];
          [by apply matches_alt_l | apply matches_alt_r; by apply IH2].
    + split; [done|].
      intros H. destruct (Hinv H) as [H'|[H' _]]; [done|].
      apply nullable_matches in H'. congruence.
  - split.
    + inversion 1; subst;
        [apply matches_alt_l; by apply IH1 | apply matches_alt_r; by apply IH2].
    + inversion 1; subst;
        [apply matches_alt_l; by apply IH1 | apply matches_alt_r; by apply IH2].
  - split.
    + inversion 1 as [| | |? ? s1 s2 H1 H2| | | |]; subst.
      apply IH in H1. by apply (matches_star_more _ (c :: s1) s2).
    + intros H. apply matches_star_cons in H as (s1 & s2 & -> & H1 & H2).
      constructor; [by apply IH | done].
Qed.

(** [matches_prefix r s] decides whether some prefix of [s] is a word
    of [r]. *)
Lemma matches_prefix_spec r s :
  matches_prefix r s = true ↔ ∃ pre post, s = pre ++ post ∧ matches r pre.
Proof.
  revert r. induction s as [|c s IH]; intros r; simpl.
  - rewrite orb_false_r, nullable_matches. split.
    + intros H. by exists [], [].
    + intros (pre & post & E & H). symmetry in E.
      apply app_eq_nil in E as [-> _]. done.
  - rewrite orb_true_iff, IH, nullable_matches. split.
    + intros [H|(pre & post & -> & H)].
      * by exists [], (c :: s).
      * exists (c :: pre), post. split; [done | by apply deriv_matches].
    + intros (pre & post & E & H). destruct pre as [|c' pre]; [by left|].
      simpl in E. injection E as <- ->. right.
      exists pre, post. split; [done | by apply deriv_matches].
Qed.

End matcher_correct.
End re_facts.

(** ** The status mapper *)

Lemma STATUS_MAPS_unknown (s : string) :
  s ∉ engine_statuses → STATUS_MAPS !! s = None.
Proof.
  intros H. unfold STATUS_MAPS.
  repeat (rewrite lookup_insert_ne;
          [| intros <-; apply H; unfold engine_statuses; set_solver]).
  apply lookup_empty.
Qed.

(** C1.  Indexing [STATUS_MAPS] with one of the six engine statuses gives
    the code of the table (passed to 1, failed to 5, the four others to
    3); with any other status it raises [KeyError], and so does
    [process_scenario]'s loop body when it reaches the lookup, without
    touching the reporter. *)
Theorem status_mapper_exact :
  getitem STATUS_MAPS "passed" = Ok STATUS_PASSED ∧
  getitem STATUS_MAPS "failed" = Ok STATUS_FAILED ∧
  getitem STATUS_MAPS "skipped" = Ok STATUS_UNTESTED ∧
  getitem STATUS_MAPS "undefined" = Ok STATUS_UNTESTED ∧
  getitem STATUS_MAPS "executing" = Ok STATUS_UNTESTED ∧
  getitem STATUS_MAPS "untested" = Ok STATUS_UNTESTED ∧
  (STATUS_PASSED = 1 ∧ STATUS_FAILED = 5 ∧ STATUS_UNTESTED = 3) ∧
  ∀ s, s ∉ engine_statuses →
    getitem STATUS_MAPS s = Raise (KeyError s) ∧
    ∀ api scenario case_id i p st,
      Scenario.status scenario = s →
      is_Some (TestrailProject.cases p !! case_id) →
      report_case api scenario case_id i p st = (st, Raise (KeyError s)).
Proof.
  do 6 (split; [reflexivity|]). split; [done|].
  intros s Hs. pose proof (STATUS_MAPS_unknown s Hs) as Hnone.
  assert (Hget : getitem STATUS_MAPS s = Raise (KeyError s))
    by (unfold getitem; by rewrite Hnone).
  split; [done|].
  intros api scenario case_id i p st <- Hcase.
  unfold report_case. rewrite bool_decide_eq_true_2 by done.
  unfold mbind, M_mbind, M_bind, lift. by rewrite Hget.
Qed.

Lemma status_mapper_exact_witness :
  getitem STATUS_MAPS "error" = Raise (KeyError "error") ∧
  report_case sample_client errored_scenario "100" 0 loaded_project
    sample_loaded
  = (sample_loaded, Raise (KeyError "error")).
Proof.
  assert (Hs : "error" ∉ engine_statuses).
  { unfold engine_statuses. intros H.
    repeat (apply elem_of_cons in H as [H|H]; [discriminate H|]).
    by apply elem_of_nil in H. }
  destruct (proj2 (proj2 (proj2 (proj2 (proj2 (proj2 (proj2
              status_mapper_exact)))))) "error" Hs) as [Hget Hbody].
  split; [exact Hget|].
  apply Hbody; [reflexivity|]. vm_compute. by eexists.
Defined.

(** ** The comment of a result *)

Lemma string_append_cons (x : ascii) (a b : string) :
  String x a +:+ b = String x (a +:+ b).
Proof. reflexivity. Qed.

Lemma string_append_assoc (a b c : string) :
  (a +:+ b) +:+ c = a +:+ b +:+ c.
Proof.
  induction a as [|x a IH]; [done|].
  by rewrite !string_append_cons, IH.
Qed.

Lemma split_lines_one_line (s : string) :
  one_line s = true → split_lines s = [s].
Proof.
  induction s as [|c s IH]; simpl; [done|].
  case_bool_decide; simpl; [done|]. intros Hs. by rewrite IH.
Qed.

Lemma split_lines_append (a b : string) :
  one_line a = true →
  split_lines (a +:+ nl +:+ b) = a :: split_lines b.
Proof.
  induction a as [|c a IH]; [done|].
  rewrite string_append_cons. simpl.
  case_bool_decide; simpl; [done|]. intros Ha. by rewrite IH.
Qed.

Lemma one_line_append (a b : string) :
  one_line (a +:+ b) = one_line a && one_line b.
Proof.
  induction a as [|c a IH]; [done|].
  rewrite string_append_cons. simpl. by rewrite IH, andb_assoc.
Qed.

Lemma one_line_step_line (step : Step.t) :
  one_line_step step = true → one_line (step_line step) = true.
Proof.
  unfold one_line_step, step_line. rewrite !andb_true_iff.
  intros [[Hk Hn] Hs].
  rewrite !one_line_append, Hk, Hn, Hs. reflexivity.
Qed.

Lemma split_lines_concat (ls : list string) :
  ls ≠ [] → Forall (λ l, one_line l = true) ls →
  split_lines (String.concat nl ls) = ls.
Proof.
  induction ls as [|l ls IH]; [done|]. intros _ Hall.
  apply Forall_cons in Hall as [Hl Hls].
  destruct ls as [|l' ls].
  - simpl. by apply split_lines_one_line.
  - change (String.concat nl (l :: l' :: ls))
      with (l +:+ nl +:+ String.concat nl (l' :: ls)).
    rewrite split_lines_append by done. by rewrite IH.
Qed.

(** C7, as amended.  The comment, cut at its line breaks, is the scenario
    name followed by one line per step in the order of the steps, each
    reading [->  <keyword> <step name> [<step status>]] with two spaces
    after the arrow (for a scenario without steps the name is followed by
    one empty line).  Names, keywords and statuses are taken to hold no
    line break. *)
Theorem comment_lines (scenario : Scenario.t) :
  one_line (Scenario.name scenario) = true →
  Forall (λ step, one_line_step step = true) (Scenario.steps scenario) →
  split_lines (_buid_comment_for_scenario scenario)
  = Scenario.name scenario ::
    match Scenario.steps scenario with
    | [] => [""]
    | steps => map step_line_two_spaces steps
    end.
Proof.
  intros Hname Hsteps. unfold _buid_comment_for_scenario.
  rewrite string_append_assoc, split_lines_append by done. f_equal.
  destruct (Scenario.steps scenario) as [|step steps]; [done|].
  change step_line_two_spaces with step_line.
  apply split_lines_concat; [done|].
  apply Forall_map. eapply Forall_impl; [exact Hsteps|].
  intros step'. apply one_line_step_line.
Qed.

Example comment_of_sample :
  _buid_comment_for_scenario sample_scenario
  = "Login" +:+ nl +:+ "->  Given a registered user [passed]" +:+ nl +:+
    "->  When the user logs in [passed]".
Proof. vm_compute. reflexivity. Qed.

(** C7, as stated, fails: the lines of the steps of [sample_scenario] are
    not [-> <keyword> <step name> [<step status>]] with a single space
    after the arrow. *)
Lemma steps_not_formatted_as_specified :
  split_lines (_buid_comment_for_scenario sample_scenario)
  ≠ Scenario.name sample_scenario ::
    map step_line_as_specified (Scenario.steps sample_scenario).
Proof. vm_compute. discriminate. Qed.

Lemma comment_lines_witness :
  split_lines (_buid_comment_for_scenario sample_scenario)
  = ["Login"; "->  Given a registered user [passed]";
     "->  When the user logs in [passed]"].
Proof.
  apply (comment_lines sample_scenario).
  - vm_compute. reflexivity.
  - repeat constructor.
Defined.

(** ** Branch policy *)

Example init_sample :
  init "master" sample_config = Ok sample_reporter.
Proof. reflexivity. Qed.




Example branch_policy_samples :
  _can_generate_test_run_for_branch sample_project "master" = Ok true ∧
  _can_generate_test_run_for_branch sample_project "release/1.4" = Ok true ∧
  _can_generate_test_run_for_branch sample_project "feature/x" = Ok false ∧
  _can_generate_test_run_for_branch sample_project "mastery" = Ok true.
Proof. vm_compute. done. Qed.

(** ** The methods of the reporter, for any client *)

Section process_facts.
Context (api : APIClient).

(** *** Scenarios without a case tag *)

Lemma for_each_nothing {A} (body : A → M unit) (l : list A)
    (st : TestrailReporter) :
  Forall (λ x, body x st = (st, Ok tt)) l →
  for_each body l st = (st, Ok tt).
Proof.
  induction 1 as [|x l Hx _ IH]; simpl; [done|].
  unfold mbind, M_mbind, M_bind. by rewrite Hx.
Qed.

(** C9.  A scenario none of whose tags, its own and those of its feature,
    starts with [testrail-C] leaves the reporter as it was: no request is
    sent (the trace is unchanged), and the summary counters, the list of
    failed cases and the projects are unchanged. *)
Theorem untagged_scenario_is_ignored (scenario : Scenario.t)
    (st : TestrailReporter) :
  Forall (λ tag, String.prefix CASE_TAG_PREFIX tag = false)
    (Scenario.tags scenario ++ Scenario.feature_tags scenario)%list →
  process_scenario api scenario st = (st, Ok tt).
Proof.
  intros Htags. unfold process_scenario. apply for_each_nothing.
  eapply Forall_impl; [exact Htags|].
  intros tag Htag. unfold process_tag. by rewrite Htag.
Qed.

(** *** The body of the loop over the projects *)

Ltac unfold_M :=
  unfold mbind, M_mbind, M_bind, mret, M_mret, M_ret, lift, self, request,
    store_project, append_failed_case in *.

Lemma with_cases_effect (i : nat) (p : TestrailProject.t)
    (st st1 : TestrailReporter) (r : res TestrailProject.t) :
  with_cases api i p st = (st1, r) →
  branch_name st1 = branch_name st ∧
  case_summary st1 = case_summary st ∧
  failed_cases st1 = failed_cases st ∧
  (calls st1 = calls st ∨
   calls st1 = (calls st ++ [get_cases_call (TestrailProject.id p)
                               (TestrailProject.suite_id p)])%list) ∧
  ∀ p1, r = Ok p1 →
    TestrailProject.allowed_branch_pattern p1
    = TestrailProject.allowed_branch_pattern p ∧
    TestrailProject.test_run p1 = TestrailProject.test_run p.
Proof.
  unfold with_cases, _load_test_cases_for_project.
  case_bool_decide; unfold_M; simpl.
  - destruct (get_cases api _ _ _) as [l|e]; intros [= <- <-]; simpl;
      (split_and!; [done.. | by right | by intros ? [= <-]]).
  - intros [= <- <-]. split_and!; [done.. | by left | by intros ? [= <-]].
Qed.

Lemma add_test_result_effect (i : nat) (p : TestrailProject.t)
    (case_id : string) (code : Z) (comment elapsed : string)
    (st st2 : TestrailReporter) (ok : bool) :
  _add_test_result api i p case_id code comment elapsed st = (st2, Ok ok) →
  ∃ run_id setup,
    calls st2 = (calls st ++ setup ++
                 [create_result_call run_id case_id code comment elapsed])%list ∧
    Forall is_run_setup setup ∧
    case_summary st2 = case_summary st ∧
    failed_cases st2 = failed_cases st.
Proof.
  unfold _add_test_result, setup_test_run.
  case_bool_decide as Hrun; unfold_M; simpl.
  - destruct (get_run_for_branch api _ _ _) as [[r|]|e]; simpl;
      [| |intros [= <- ?]; done].
    + intros [= <- _]. exists (run_id r), [get_run_for_branch_call
        (TestrailProject.id p) (branch_name st)]; simpl.
      rewrite <- app_assoc. repeat split. by repeat constructor.
    + destruct (create_run api _ _ _ _) as [r|e]; simpl; [|by intros [= <- ?]].
      intros [= <- _].
      exists (run_id r), [get_run_for_branch_call
        (TestrailProject.id p) (branch_name st);
        create_run_call (TestrailProject.id p) (TestrailProject.suite_id p)
          (branch_name st)]; simpl.
      rewrite <- !app_assoc. repeat split. by repeat constructor.
  - destruct (TestrailProject.test_run p) as [r|]; [|done].
    intros [= <- _]. exists (run_id r), []. simpl. by repeat split.
Qed.

Lemma counted_increment (key : string) (st : TestrailReporter) (n : Z) :
  case_summary st !! key = Some n →
  increment key st
  = (set_case_summary (<[key := n + 1]> (case_summary st)) st, Ok tt).
Proof. intros H. unfold increment. by rewrite H. Qed.

Lemma increment_ok (key : string) (st st' : TestrailReporter) :
  increment key st = (st', Ok tt) → counted key st st'.
Proof.
  unfold increment, counted. destruct (case_summary st !! key) as [n|]; [|done].
  intros [= <-]. by exists n.
Qed.

(** Raising one counter raises the number of recorded outcomes by one. *)
Lemma counted_outcomes (key : string) (st st' : TestrailReporter) :
  key ∈ ["passed"; "skipped"; "untested"] →
  counted key st st' →
  outcomes_recorded st' = outcomes_recorded st + 1.
Proof.
  intros Hkey (n & Hn & ->). unfold outcomes_recorded, count_of. simpl.
  repeat (apply elem_of_cons in Hkey as [->|Hkey]);
    [| | |by apply elem_of_nil in Hkey];
    rewrite lookup_insert_eq, !lookup_insert_ne, Hn by done; simpl; lia.
Qed.

(** Every way out of [report_case] without an exception is one of the four
    outcomes. *)
Lemma report_case_outcome (scenario : Scenario.t) (case_id : string)
    (i : nat) (p : TestrailProject.t) (st st' : TestrailReporter) :
  report_case api scenario case_id i p st = (st', Ok tt) →
  ∃ o, recorded o scenario case_id p st st'.
Proof.
  unfold report_case. case_bool_decide as Hcase.
  - unfold mbind at 1, M_mbind, M_bind, lift.
    destruct (getitem STATUS_MAPS (Scenario.status scenario)) as [code|e] eqn:Hcode;
      [|done].
    case_bool_decide as Hunt.
    + intros H%increment_ok. exists skipped_untested_status.
      subst code. by repeat split.
    + unfold mbind at 1, M_mbind, M_bind, self, lift.
      destruct (_can_generate_test_run_for_branch p (branch_name st))
        as [[|]|e] eqn:Hallowed; simpl; [| |done].
      * unfold mbind, M_mbind, M_bind. simpl.
        destruct (_add_test_result api i p case_id code
                    (_buid_comment_for_scenario scenario)
                    (pretty (int_of (Scenario.duration scenario)) +:+ "s") st)
          as [st2 [ok|e]] eqn:Hadd; [|done].
        apply add_test_result_effect in Hadd
          as (rid & setup & Hcalls & Hsetup & Hsum & Hfailed).
        intros H. exists submitted. split; [done|].
        exists code. repeat split; [done..|].
        exists rid, setup, st2. repeat split; [done..|].
        destruct ok.
        -- left. by apply increment_ok.
        -- right. unfold append_failed_case in H. by injection H as <-.
      * intros H%increment_ok. exists skipped_by_policy.
        repeat split; [done|by exists code|done..].
  - intros H%increment_ok. exists not_matched. split; [|done].
    by apply eq_None_not_Some.
Qed.

(** The four outcomes exclude one another. *)
Lemma recorded_unique (o o' : outcome) (scenario : Scenario.t)
    (case_id : string) (p : TestrailProject.t) (st st' : TestrailReporter) :
  recorded o scenario case_id p st st' →
  recorded o' scenario case_id p st st' →
  o' = o.
Proof.
  destruct o, o'; simpl; try done;
    repeat match goal with
           | |- _ ∧ _ → _ => intros [? ?]
           | |- (∃ _, _) → _ => intros [? ?]
           | |- _ → _ => intros ?
           | H : _ ∧ _ |- _ => destruct H as [? ?]
           | H : ∃ _, _ |- _ => destruct H as [? ?]
           | H : is_Some ?x, H' : ?x = None |- _ =>
               rewrite H' in H; by apply is_Some_None in H
           end;
    congruence.
Qed.

Lemma recorded_outcomes (o : outcome) (scenario : Scenario.t)
    (case_id : string) (p : TestrailProject.t) (st st' : TestrailReporter) :
  recorded o scenario case_id p st st' →
  outcomes_recorded st' = outcomes_recorded st + 1.
Proof.
  destruct o; simpl.
  - intros (_ & code & _ & _ & _ & rid & setup & st2 & _ & _ & Hs & Hf & H).
    assert (Hst2 : outcomes_recorded st2 = outcomes_recorded st)
      by (unfold outcomes_recorded, count_of; by rewrite Hs, Hf).
    rewrite <- Hst2. destruct H as [H| ->].
    + eapply counted_outcomes; [|done]. set_solver.
    + unfold outcomes_recorded, count_of; simpl.
      rewrite length_app. simpl. lia.
  - intros (_ & _ & _ & H). eapply counted_outcomes; [|done]. set_solver.
  - intros (_ & _ & H). eapply counted_outcomes; [|done]. set_solver.
  - intros (_ & H). eapply counted_outcomes; [|done]. set_solver.
Qed.

(** *** Every triple of a scenario is recorded *)

Lemma process_case_outcomes (scenario : Scenario.t) (case_id : string)
    (i : nat) (p : TestrailProject.t) (st st' : TestrailReporter) :
  process_case api scenario case_id i p st = (st', Ok tt) →
  outcomes_recorded st' = outcomes_recorded st + 1.
Proof.
  unfold process_case. unfold mbind at 1, M_mbind, M_bind.
  destruct (with_cases api i p st) as [st1 [p1|e]] eqn:Hload; [|done].
  intros Hreport.
  apply with_cases_effect in Hload as (_ & Hs & Hf & _ & _).
  apply report_case_outcome in Hreport as [o Ho].
  apply recorded_outcomes in Ho. rewrite Ho.
  unfold outcomes_recorded, count_of. by rewrite Hs, Hf.
Qed.

Lemma process_case_length (scenario : Scenario.t) (case_id : string)
    (i : nat) (p : TestrailProject.t) (st : TestrailReporter) :
  length (projects (process_case api scenario case_id i p st).1)
  = length (projects st).
Proof.
  unfold process_case, with_cases, _load_test_cases_for_project, report_case,
    _add_test_result, setup_test_run, increment.
  unfold_M.
  repeat (case_bool_decide || case_match || simplify_eq/=);
    rewrite ?length_insert; done.
Qed.

Lemma for_each_project_outcomes (scenario : Scenario.t) (case_id : string)
    (ps : list TestrailProject.t) (i : nat) (st st' : TestrailReporter) :
  for_each_project (process_case api scenario case_id) i ps st = (st', Ok tt) →
  outcomes_recorded st' = outcomes_recorded st + Z.of_nat (length ps) ∧
  length (projects st') = length (projects st).
Proof.
  revert i st. induction ps as [|p ps IH]; intros i st; simpl.
  - intros [= <-]. split; [lia | done].
  - unfold mbind, M_mbind, M_bind.
    pose proof (process_case_length scenario case_id i p st) as Hlen.
    destruct (process_case api scenario case_id i p st) as [st1 [[]|e]] eqn:Hp;
      [|done].
    intros [Hout Hlen']%IH. apply process_case_outcomes in Hp.
    simpl in Hlen. split; [lia | congruence].
Qed.

(** When a scenario has been processed, one outcome has been recorded for
    each of its case tags and each project. *)
Lemma process_scenario_outcomes (scenario : Scenario.t)
    (st st' : TestrailReporter) :
  process_scenario api scenario st = (st', Ok tt) →
  outcomes_recorded st' =
    outcomes_recorded st +
    Z.of_nat
      (length (List.filter (String.prefix CASE_TAG_PREFIX)
                 (Scenario.tags scenario ++ Scenario.feature_tags scenario))
       * length (projects st)).
Proof.
  unfold process_scenario.
  generalize (Scenario.tags scenario ++ Scenario.feature_tags scenario)%list.
  intros tags. revert st.
  induction tags as [|tag tags IH]; intros st; simpl.
  - intros [= <-]. lia.
  - unfold mbind, M_mbind, M_bind.
    destruct (process_tag api scenario tag st) as [st1 [[]|e]] eqn:Htag;
      [|done].
    intros Hrest%IH. unfold process_tag in Htag.
    destruct (String.prefix CASE_TAG_PREFIX tag); simpl.
    + unfold mbind, M_mbind, M_bind, self in Htag.
      apply for_each_project_outcomes in Htag as [Hout Hlen].
      rewrite Hrest, Hout, Hlen. lia.
    + injection Htag as <-. exact Hrest.
Qed.



(** *** Scenarios whose status maps to Untested *)

Lemma nothing_submitted_refl (st : TestrailReporter) : nothing_submitted st st.
Proof.
  split; [|done]. exists []. by rewrite app_nil_r.
Qed.

Lemma nothing_submitted_trans (a b c : TestrailReporter) :
  nothing_submitted a b → nothing_submitted b c → nothing_submitted a c.
Proof.
  intros [(n1 & H1 & F1) [Hf1 Hp1]] [(n2 & H2 & F2) [Hf2 Hp2]].
  split; [|split; congruence].
  exists (n1 ++ n2)%list. rewrite H2, H1, <- app_assoc.
  split; [done | by apply Forall_app].
Qed.

(** A loop keeps what each round of its body keeps, whether the loop
    finishes or is left by an exception. *)
Lemma for_each_keeps {A} (R : TestrailReporter → TestrailReporter → Prop)
    (body : A → M unit) (l : list A) :
  (∀ st, R st st) →
  (∀ a b c, R a b → R b c → R a c) →
  (∀ x st, x ∈ l → R st (body x st).1) →
  ∀ st, R st (for_each body l st).1.
Proof.
  intros Hrefl Htrans. induction l as [|x l IH]; intros Hbody st; simpl.
  - apply Hrefl.
  - unfold mbind, M_mbind, M_bind.
    pose proof (Hbody x st ltac:(left)) as Hx.
    destruct (body x st) as [st1 [[]|e]]; simpl in *; [|done].
    eapply Htrans; [exact Hx|]. apply IH. intros y st2 Hy.
    apply Hbody. by right.
Qed.

Lemma for_each_project_keeps
    (R : TestrailReporter → TestrailReporter → Prop)
    (body : nat → TestrailProject.t → M unit) (ps : list TestrailProject.t) :
  (∀ st, R st st) →
  (∀ a b c, R a b → R b c → R a c) →
  (∀ i p st, R st (body i p st).1) →
  ∀ i st, R st (for_each_project body i ps st).1.
Proof.
  intros Hrefl Htrans Hbody. induction ps as [|p ps IH]; intros i st; simpl.
  - apply Hrefl.
  - unfold mbind, M_mbind, M_bind.
    pose proof (Hbody i p st) as Hp.
    destruct (body i p st) as [st1 [[]|e]]; simpl in *; [|done].
    eapply Htrans; [exact Hp|]. apply IH.
Qed.

Lemma increment_effect (key : string) (st : TestrailReporter) :
  calls (increment key st).1 = calls st ∧
  failed_cases (increment key st).1 = failed_cases st ∧
  ∀ k, k ≠ key →
    case_summary (increment key st).1 !! k = case_summary st !! k.
Proof.
  unfold increment. destruct (case_summary st !! key) as [n|]; simpl; [|done].
  split_and!; [done..|]. intros k Hk. by rewrite lookup_insert_ne.
Qed.

Lemma process_case_untested (scenario : Scenario.t) (case_id : string)
    (i : nat) (p : TestrailProject.t) (st : TestrailReporter) :
  getitem STATUS_MAPS (Scenario.status scenario) = Ok STATUS_UNTESTED →
  nothing_submitted st (process_case api scenario case_id i p st).1.
Proof.
  intros Hcode. unfold process_case. unfold mbind at 1, M_mbind, M_bind.
  destruct (with_cases api i p st) as [st1 r] eqn:Hload.
  pose proof (with_cases_effect _ _ _ _ _ Hload) as (_ & Hs & Hf & Hc & _).
  assert (H1 : nothing_submitted st st1).
  { split; [|split; congruence].
    destruct Hc as [Hc|Hc]; rewrite Hc.
    - exists []. by rewrite app_nil_r.
    - eexists. split; [done|]. by repeat constructor. }
  destruct r as [p1|e]; [|done].
  eapply nothing_submitted_trans; [exact H1|].
  unfold report_case.
  assert (Hinc : ∀ key, key ≠ "passed" →
            nothing_submitted st1 (increment key st1).1).
  { intros key Hkey.
    destruct (increment_effect key st1) as (Hc' & Hf' & Hs').
    split; [|split; [done|by apply Hs']].
    exists []. by rewrite app_nil_r. }
  case_bool_decide.
  - unfold mbind, M_mbind, M_bind, lift. rewrite Hcode.
    rewrite bool_decide_eq_true_2 by done. by apply Hinc.
  - by apply Hinc.
Qed.


(** *** A case tag that occurs several times *)

Lemma substring_all (s : string) :
  String.substring 0 (String.length s) s = s.
Proof. induction s as [|d s IH]; simpl; [done | by rewrite IH]. Qed.

Lemma string_from_0 (s : string) : string_from 0 s = s.
Proof. unfold string_from. rewrite Nat.sub_0_r. apply substring_all. Qed.

Lemma string_from_S (n : nat) (c : ascii) (s : string) :
  string_from (S n) (String c s) = string_from n s.
Proof. reflexivity. Qed.

Lemma prefix_append (a s : string) :
  String.prefix a s = true → s = a +:+ string_from (String.length a) s.
Proof.
  revert s. induction a as [|c a IH]; intros s.
  - intros _. by rewrite string_from_0.
  - destruct s as [|d s]; [done|]. simpl.
    destruct (Ascii.ascii_dec c d) as [->|]; [|done].
    intros H. rewrite string_append_cons, string_from_S. f_equal.
    by apply IH.
Qed.

Lemma string_from_append (a s : string) :
  string_from (String.length a) (a +:+ s) = s.
Proof.
  induction a as [|c a IH]; [apply string_from_0|].
  rewrite string_append_cons. simpl String.length.
  by rewrite string_from_S.
Qed.

Lemma prefix_of_append (a s : string) : String.prefix a (a +:+ s) = true.
Proof.
  induction a as [|c a IH]; [by destruct s|].
  rewrite string_append_cons. simpl.
  destruct (Ascii.ascii_dec c c); [done|congruence].
Qed.

(** A tag names the case [case_id] exactly when it is [case_tag case_id]. *)
Lemma tag_names_case (tag case_id : string) :
  String.prefix CASE_TAG_PREFIX tag = true ∧
  string_from (String.length CASE_TAG_PREFIX) tag = case_id
  ↔ tag = case_tag case_id.
Proof.
  unfold case_tag. split.
  - intros [Hp <-]. by apply prefix_append.
  - intros ->. split; [apply prefix_of_append | apply string_from_append].
Qed.

Lemma results_for_snoc (x : string) (l : list call) (c : call) :
  results_for x (l ++ [c]) =
  (results_for x l + (if is_result_for x c then 1 else 0))%nat.
Proof.
  unfold results_for. rewrite List.filter_app, length_app. simpl.
  by destruct (is_result_for x c).
Qed.

Lemma holding_cons (case_id : string) (p : TestrailProject.t)
    (ps : list TestrailProject.t) :
  holding case_id (p :: ps) =
  ((if bool_decide (is_Some (TestrailProject.cases p !! case_id))
    then 1 else 0) + holding case_id ps)%nat.
Proof. unfold holding. simpl. by case_bool_decide. Qed.

Lemma results_for_app_setup (x : string) (l setup : list call) :
  Forall is_run_setup setup →
  results_for x (l ++ setup) = results_for x l.
Proof.
  intros Hsetup. unfold results_for. rewrite List.filter_app, length_app.
  assert (List.filter (is_result_for x) setup = []) as ->; [|simpl; lia].
  induction Hsetup as [|c setup Hc _ IH]; [done|].
  simpl. rewrite IH. by destruct c.
Qed.

Lemma holding_same (case_id : string) (ps ps' : list TestrailProject.t) :
  cases_and_pattern <$> ps = cases_and_pattern <$> ps' →
  holding case_id ps = holding case_id ps'.
Proof.
  revert ps'. induction ps as [|p ps IH]; intros [|p' ps'] Heq;
    try done.
  injection Heq as Hc _ Hrest. rewrite !holding_cons, Hc.
  by rewrite (IH ps').
Qed.

Lemma open_for_same (branch : string) (ps ps' : list TestrailProject.t) :
  cases_and_pattern <$> ps = cases_and_pattern <$> ps' →
  Forall (open_for branch) ps → Forall (open_for branch) ps'.
Proof.
  revert ps'. induction ps as [|p ps IH]; intros [|p' ps'] Heq Hopen;
    try done.
  injection Heq as Hc Hp Hrest.
  apply Forall_cons in Hopen as [[Hcases Hallowed] Hopen].
  constructor; [|by apply IH].
  unfold open_for, _can_generate_test_run_for_branch in *.
  by rewrite <- Hc, <- Hp.
Qed.

Section open_projects.
Context (scenario : Scenario.t) (code : Z) (branch : string).
Context (Hcode : getitem STATUS_MAPS (Scenario.status scenario) = Ok code).
Context (Hsubmit : code ≠ STATUS_UNTESTED).
Context (Hanswers : answers api).

(** Submitting a result when the service answers: the run is set up if
    need be, and one createResult request is sent. *)
Lemma add_test_result_answered (i : nat) (p : TestrailProject.t)
    (case_id comment elapsed : string) (st : TestrailReporter) :
  projects st !! i = Some p →
  ∃ st2 ok p2 setup run_id,
    _add_test_result api i p case_id code comment elapsed st = (st2, Ok ok) ∧
    st2 = set_calls
            (calls st ++ setup ++
             [create_result_call run_id case_id code comment elapsed])%list
            (set_projects (<[i := p2]> (projects st)) st) ∧
    cases_and_pattern p2 = cases_and_pattern p ∧
    Forall is_run_setup setup.
Proof.
  intros Hp. destruct Hanswers as (Hlookup & Hcreate & Hresult).
  unfold _add_test_result, setup_test_run.
  case_bool_decide as Hrun; unfold_M; simpl.
  - destruct (Hlookup (calls st) (TestrailProject.id p) (branch_name st))
      as [[found|] ->]; simpl.
    + destruct (Hresult
                  (calls st ++
                   [get_run_for_branch_call (TestrailProject.id p)
                      (branch_name st)])%list
                  (run_id found) case_id code comment elapsed) as [ok ->].
      eexists _, ok, (TestrailProject.set_test_run (Some found) p),
        [get_run_for_branch_call (TestrailProject.id p) (branch_name st)],
        (run_id found).
      split_and!; [done| |done|by repeat constructor].
      simpl. by rewrite <- app_assoc.
    + destruct (Hcreate
                  (calls st ++
                   [get_run_for_branch_call (TestrailProject.id p)
                      (branch_name st)])%list
                  (TestrailProject.id p) (TestrailProject.suite_id p)
                  (branch_name st)) as [created ->]; simpl.
      destruct (Hresult
                  ((calls st ++
                    [get_run_for_branch_call (TestrailProject.id p)
                       (branch_name st)]) ++
                   [create_run_call (TestrailProject.id p)
                      (TestrailProject.suite_id p) (branch_name st)])%list
                  (run_id created) case_id code comment elapsed) as [ok ->].
      eexists _, ok,
        (TestrailProject.set_test_run (Some created)
           (TestrailProject.set_test_run None p)),
        [get_run_for_branch_call (TestrailProject.id p) (branch_name st);
         create_run_call (TestrailProject.id p) (TestrailProject.suite_id p)
           (branch_name st)],
        (run_id created).
      split_and!; [done| |done|by repeat constructor].
      simpl. by rewrite list_insert_insert_eq, <- !app_assoc.
  - destruct (TestrailProject.test_run p) as [known|] eqn:Hknown; [|done].
    destruct (Hresult (calls st) (run_id known) case_id code comment elapsed)
      as [ok ->].
    eexists _, ok, p, [], (run_id known).
    split_and!; [done| |done|done].
    simpl. by rewrite list_insert_id.
Qed.

Lemma process_case_open (x case_id : string) (i : nat)
    (p : TestrailProject.t) (st : TestrailReporter) :
  open_for branch p → steady branch st → projects st !! i = Some p →
  ∃ st' p',
    process_case api scenario case_id i p st = (st', Ok tt) ∧
    steady branch st' ∧
    projects st' = <[i := p']> (projects st) ∧
    cases_and_pattern p' = cases_and_pattern p ∧
    results_for x (calls st') =
      (results_for x (calls st) +
       if bool_decide (is_Some (TestrailProject.cases p !! case_id))
          && bool_decide (case_id = x) then 1 else 0)%nat ∧
    submitted_count st' =
      submitted_count st +
      (if bool_decide (is_Some (TestrailProject.cases p !! case_id))
       then 1 else 0).
Proof.
  intros (Hcases & Hallowed) (Hbranch & [n Hn] & [m Hm]) Hp.
  unfold process_case, with_cases.
  rewrite bool_decide_eq_false_2 by done.
  unfold report_case, mbind, M_mbind, M_bind, mret, M_mret, M_ret, lift, self.
  cbv beta iota. cbn [Status.name].
  case_bool_decide as Hcase.
  - rewrite Hcode. cbv beta iota.
    rewrite bool_decide_eq_false_2 by done.
    rewrite Hbranch, Hallowed. cbv beta iota. cbn [negb]. cbv beta iota.
    destruct (add_test_result_answered i p case_id
                (_buid_comment_for_scenario scenario)
                (pretty (int_of (Scenario.duration scenario)) +:+ "s") st Hp)
      as (st2 & ok & p2 & setup & rid & -> & -> & Hp2 & Hsetup).
    assert (Hres : results_for x
                     (calls st ++ setup ++
                      [create_result_call rid case_id code
                         (_buid_comment_for_scenario scenario)
                         (pretty (int_of (Scenario.duration scenario)) +:+ "s")])
                   = (results_for x (calls st) +
                      if bool_decide (case_id = x) then 1 else 0)%nat).
    { rewrite app_assoc, results_for_snoc, results_for_app_setup by done.
      done. }
    destruct ok.
    + rewrite (counted_increment _ _ n) by done.
      eexists _, p2. split; [done|]. unfold steady. simpl. split_and!.
      * done.
      * rewrite lookup_insert_eq. by eexists.
      * rewrite lookup_insert_ne by done. by eexists.
      * done.
      * done.
      * done.
      * unfold submitted_count, count_of. simpl.
        rewrite lookup_insert_eq, Hn. simpl. lia.
    + unfold append_failed_case.
      eexists _, p2. split; [done|]. unfold steady. simpl. split_and!.
      * done.
      * by eexists.
      * by eexists.
      * done.
      * done.
      * done.
      * unfold submitted_count, count_of. simpl.
        rewrite length_app. simpl. lia.
  - rewrite (counted_increment _ _ m) by done.
    eexists _, p. split; [done|]. unfold steady. simpl. split_and!.
    + done.
    + rewrite lookup_insert_ne by done. by eexists.
    + rewrite lookup_insert_eq. by eexists.
    + by rewrite list_insert_id.
    + done.
    + lia.
    + unfold submitted_count, count_of. simpl.
      rewrite lookup_insert_ne by done. lia.
Qed.

Lemma for_each_project_open (x case_id : string)
    (ps : list TestrailProject.t) (i : nat) (st : TestrailReporter) :
  drop i (projects st) = ps →
  Forall (open_for branch) ps → steady branch st →
  ∃ st',
    for_each_project (process_case api scenario case_id) i ps st
    = (st', Ok tt) ∧
    steady branch st' ∧
    cases_and_pattern <$> projects st' = cases_and_pattern <$> projects st ∧
    results_for x (calls st') =
      (results_for x (calls st) +
       if bool_decide (case_id = x) then holding case_id ps else 0)%nat ∧
    submitted_count st' =
      submitted_count st + Z.of_nat (holding case_id ps).
Proof.
  revert i st. induction ps as [|p ps IH]; intros i st Hdrop Hopen Hst; simpl.
  - exists st. split_and!; [done..| |].
    + by case_bool_decide.
    + unfold holding. simpl. lia.
  - apply Forall_cons in Hopen as [Hp Hopen].
    assert (Hi : projects st !! i = Some p).
    { rewrite <- (Nat.add_0_r i), <- lookup_drop, Hdrop. done. }
    destruct (process_case_open x case_id i p st Hp Hst Hi)
      as (st1 & p' & Hrun & Hst1 & Hps1 & Hp' & Hres1 & Hsub1).
    destruct (IH (S i) st1) as (st2 & Hrun2 & Hst2 & Hps2 & Hres2 & Hsub2);
      [|done..|].
    { rewrite Hps1, drop_insert_lt by lia.
      rewrite (drop_S _ _ _ Hi) in Hdrop. by injection Hdrop. }
    exists st2. unfold mbind, M_mbind, M_bind. rewrite Hrun.
    split_and!; [done..| | |].
    + rewrite Hps2, Hps1, list_fmap_insert, Hp'. apply list_insert_id.
      by rewrite list_lookup_fmap, Hi.
    + rewrite Hres2, Hres1, holding_cons.
      destruct (bool_decide (is_Some (TestrailProject.cases p !! case_id)));
        destruct (bool_decide (case_id = x)); cbn [andb]; lia.
    + rewrite Hsub2, Hsub1, holding_cons.
      destruct (bool_decide (is_Some (TestrailProject.cases p !! case_id))); lia.
Qed.

Lemma process_tag_open (x tag : string) (st : TestrailReporter) :
  Forall (open_for branch) (projects st) → steady branch st →
  ∃ st', process_tag api scenario tag st = (st', Ok tt) ∧
    steady branch st' ∧
    cases_and_pattern <$> projects st' = cases_and_pattern <$> projects st ∧
    results_for x (calls st') =
      (results_for x (calls st) +
       if bool_decide (tag = case_tag x) then holding x (projects st)
       else 0)%nat ∧
    submitted_count st' =
      submitted_count st + Z.of_nat (hits (projects st) tag).
Proof.
  intros Hopen Hst. unfold process_tag, hits.
  destruct (String.prefix CASE_TAG_PREFIX tag) eqn:Hprefix.
  - unfold mbind, M_mbind, M_bind, self.
    destruct (for_each_project_open x
                (string_from (String.length CASE_TAG_PREFIX) tag)
                (projects st) 0 st eq_refl Hopen Hst)
      as (st' & Hrun & Hst' & Hps & Hres & Hsub).
    exists st'. split_and!; [done..| |done].
    rewrite Hres. f_equal.
    case_bool_decide as Hx.
    + rewrite bool_decide_eq_true_2; [by rewrite Hx|].
      by apply tag_names_case.
    + rewrite bool_decide_eq_false_2; [done|].
      intros Htag%tag_names_case. by destruct Htag.
  - exists st. split_and!; [done..| |simpl; lia].
    rewrite bool_decide_eq_false_2; [lia|].
    intros Htag%tag_names_case. destruct Htag. congruence.
Qed.

Lemma for_each_tag_open (x : string) (tags : list string)
    (st : TestrailReporter) :
  Forall (open_for branch) (projects st) → steady branch st →
  ∃ st', for_each (process_tag api scenario) tags st = (st', Ok tt) ∧
    steady branch st' ∧
    cases_and_pattern <$> projects st' = cases_and_pattern <$> projects st ∧
    results_for x (calls st') =
      (results_for x (calls st) +
       count_occ String.eq_dec tags (case_tag x) * holding x (projects st))%nat ∧
    submitted_count st' =
      submitted_count st +
      Z.of_nat (list_sum (map (hits (projects st)) tags)).
Proof.
  revert st. induction tags as [|tag tags IH]; intros st Hopen Hst; simpl.
  - exists st. split_and!; [done..|lia|lia].
  - destruct (process_tag_open x tag st Hopen Hst)
      as (st1 & Hrun & Hst1 & Hps1 & Hres1 & Hsub1).
    destruct (IH st1) as (st2 & Hrun2 & Hst2 & Hps2 & Hres2 & Hsub2);
      [by eapply open_for_same|done|].
    assert (Hhits : map (hits (projects st1)) tags
                    = map (hits (projects st)) tags).
    { apply map_ext. intros t. unfold hits.
      destruct (String.prefix CASE_TAG_PREFIX t); [|done].
      by apply holding_same. }
    exists st2. unfold mbind, M_mbind, M_bind. rewrite Hrun.
    split_and!; [done|done|congruence| |].
    + rewrite Hres2, Hres1, (holding_same x _ _ Hps1).
      destruct (String.eq_dec tag (case_tag x)) as [->|Hne].
      * rewrite bool_decide_eq_true_2 by done. simpl. lia.
      * rewrite bool_decide_eq_false_2 by done. lia.
    + rewrite Hsub2, Hsub1, Hhits. lia.
Qed.

End open_projects.


(** *** Requests that are sent at most once per project

    The run of a project is looked up and created at most once in a
    session, and so are the cases fetched when no suite of the service is
    empty. *)

Lemma requests_app (k : request_kind) (pid : Z) (l1 l2 : list call) :
  requests k pid (l1 ++ l2) = (requests k pid l1 + requests k pid l2)%nat.
Proof. unfold requests. by rewrite List.filter_app, length_app. Qed.

Lemma requests_elsewhere (k : request_kind) (pid : Z)
    (p : TestrailProject.t) (new : list call) :
  Forall (concerns p) new → pid ≠ TestrailProject.id p →
  requests k pid new = 0%nat.
Proof.
  intros Hnew Hpid. induction Hnew as [|c new Hc _ IH]; [done|].
  unfold requests in *. simpl.
  destruct (is_request k pid c) eqn:E; [|done].
  apply Hc in E. congruence.
Qed.

Lemma allowance_le_1 (k : request_kind) (p : TestrailProject.t) :
  (allowance k p ≤ 1)%nat.
Proof. unfold allowance. destruct (cached k p); lia. Qed.

Lemma consistent_at_most_once (st : TestrailReporter) :
  caches_consistent api st → requested_at_most_once api st.
Proof.
  intros [Hids Hst]. split; [done|]. intros j q k Hq Hk.
  pose proof (Hst j q k Hq Hk). pose proof (allowance_le_1 k q). lia.
Qed.

Lemma bounded_same (bound : request_kind → TestrailProject.t → nat)
    (st st' : TestrailReporter) :
  projects st' = projects st → calls st' = calls st →
  bounded api bound st → bounded api bound st'.
Proof. unfold bounded. by intros -> ->. Qed.

(** The state after the reporter sent the requests [new], all of them for
    the project at position [i], and stored [p'] at that position. *)
Lemma bounded_after (b b' : request_kind → TestrailProject.t → nat)
    (st st' : TestrailReporter) (i : nat) (p p' : TestrailProject.t)
    (new : list call) :
  bounded api b st →
  projects st !! i = Some p →
  projects st' = <[i := p']> (projects st) →
  TestrailProject.id p' = TestrailProject.id p →
  calls st' = (calls st ++ new)%list →
  Forall (concerns p) new →
  (∀ k q, (b k q ≤ b' k q)%nat) →
  (∀ k, in_scope api k →
     (requests k (TestrailProject.id p) (calls st) +
      requests k (TestrailProject.id p) new ≤ b' k p')%nat) →
  bounded api b' st'.
Proof.
  intros [Hids Hst] Hp Hps Hid Hcalls Hnew Hle Hbound.
  assert (Hids' : TestrailProject.id <$> projects st'
                  = TestrailProject.id <$> projects st).
  { rewrite Hps, list_fmap_insert, Hid. apply list_insert_id.
    by rewrite list_lookup_fmap, Hp. }
  split; [by rewrite Hids'|].
  intros j q k Hq Hk. rewrite Hcalls, requests_app.
  rewrite Hps in Hq. apply list_lookup_insert_Some in Hq
    as [(<- & <- & _)|[Hne Hq]].
  - rewrite Hid. by apply Hbound.
  - rewrite (requests_elsewhere k _ p new Hnew).
    + pose proof (Hst j q k Hq Hk). pose proof (Hle k q). lia.
    + intros Heq. apply Hne.
      eapply (NoDup_lookup _ i j _ Hids); rewrite list_lookup_fmap.
      * by rewrite Hp.
      * rewrite Hq. simpl. by rewrite Heq.
Qed.

Lemma cases_by_id_nonempty (l : list testcase) : l ≠ [] → cases_by_id l ≠ ∅.
Proof.
  assert (Hfold : ∀ (l : list testcase) (m : gmap string testcase),
            m ≠ ∅ →
            fold_left (λ m c, <[pretty (testcase_id c) := c]> m) l m ≠ ∅).
  { clear l. induction l as [|c l IH]; intros m Hm; simpl; [done|].
    apply IH, insert_non_empty. }
  destruct l as [|c l]; [done|]. intros _.
  unfold cases_by_id. simpl. apply Hfold, insert_non_empty.
Qed.

Lemma requests_cons (k : request_kind) (pid : Z) (c : call) (l : list call) :
  requests k pid (c :: l)
  = ((if is_request k pid c then 1 else 0) + requests k pid l)%nat.
Proof. unfold requests. simpl. by destruct (is_request k pid c). Qed.

Lemma requests_nil (k : request_kind) (pid : Z) : requests k pid [] = 0%nat.
Proof. reflexivity. Qed.

(** Counts the requests of a literal list, once the kind is known. *)
Ltac count_requests :=
  rewrite ?requests_cons, ?requests_nil; cbn [is_request];
  rewrite ?bool_decide_eq_true_2 by done.

Ltac no_request :=
  repeat constructor; intros [] ? ; simpl; try done;
  by intros ?%bool_decide_eq_true_1.

Lemma with_cases_consistent (i : nat) (p : TestrailProject.t)
    (st st1 : TestrailReporter) (r : res TestrailProject.t) :
  caches_consistent api st →
  projects st !! i = Some p →
  with_cases api i p st = (st1, r) →
  requested_at_most_once api st1 ∧
  ∀ p1, r = Ok p1 →
    caches_consistent api st1 ∧
    projects st1 = <[i := p1]> (projects st) ∧
    TestrailProject.id p1 = TestrailProject.id p.
Proof.
  intros Hst Hp. unfold with_cases, _load_test_cases_for_project.
  case_bool_decide as Hempty; unfold_M; simpl.
  - assert (Hold : ∀ k, in_scope api k →
              (requests k (TestrailProject.id p) (calls st)
               ≤ if k is case_fetch then 0 else allowance k p)%nat).
    { intros k Hk. pose proof (proj2 Hst i p k Hp Hk) as H.
      destruct k; [|done..]. unfold allowance, cached in H.
      by rewrite bool_decide_eq_true_2 in H by done. }
    destruct (get_cases api _ _ _) as [l|e] eqn:Hl; intros [= <- <-].
    + split.
      * eapply (bounded_after allowance _ st _ i p
                  (TestrailProject.set_cases (cases_by_id l) p)
                  [get_cases_call (TestrailProject.id p)
                     (TestrailProject.suite_id p)]);
          [done..|no_request|apply allowance_le_1|].
        intros k Hk. pose proof (Hold k Hk) as H.
        pose proof (allowance_le_1 k p).
        destruct k; count_requests; lia.
      * intros p1 [= <-]. split_and!; [|done..].
        eapply (bounded_after allowance _ st _ i p
                  (TestrailProject.set_cases (cases_by_id l) p)
                  [get_cases_call (TestrailProject.id p)
                     (TestrailProject.suite_id p)]);
          [done..|no_request|done|].
        intros k Hk. pose proof (Hold k Hk) as H.
        destruct k; count_requests;
          [|unfold allowance, cached in *; simpl; lia..].
        unfold allowance, cached. simpl.
        rewrite bool_decide_eq_false_2; [simpl; lia|].
        apply cases_by_id_nonempty. by eapply Hk.
    + split; [|done].
      eapply (bounded_after allowance _ st _ i p p
                [get_cases_call (TestrailProject.id p)
                   (TestrailProject.suite_id p)]);
        [done|done|by rewrite list_insert_id|done|done|no_request
        |apply allowance_le_1|].
      intros k Hk. pose proof (Hold k Hk) as H.
      pose proof (allowance_le_1 k p).
      destruct k; count_requests; lia.
  - intros [= <- <-]. split; [by apply consistent_at_most_once|].
    intros p1 [= <-]. split_and!; [done| |done].
    by rewrite list_insert_id.
Qed.

Lemma consistent_result {A} (st st2 : TestrailReporter) (r : res A)
    (i : nat) (p : TestrailProject.t) :
  caches_consistent api st2 →
  (∃ p2, projects st2 = <[i := p2]> (projects st) ∧
         TestrailProject.id p2 = TestrailProject.id p) →
  requested_at_most_once api st2 ∧
  ∀ ok, r = Ok ok →
    caches_consistent api st2 ∧
    ∃ p2, projects st2 = <[i := p2]> (projects st) ∧
          TestrailProject.id p2 = TestrailProject.id p.
Proof. intros H1 H2. split; [by apply consistent_at_most_once | done]. Qed.

Lemma add_test_result_consistent (i : nat) (p : TestrailProject.t)
    (case_id : string) (code : Z) (comment elapsed : string)
    (st st2 : TestrailReporter) (r : res bool) :
  caches_consistent api st →
  projects st !! i = Some p →
  _add_test_result api i p case_id code comment elapsed st = (st2, r) →
  requested_at_most_once api st2 ∧
  ∀ ok, r = Ok ok →
    caches_consistent api st2 ∧
    ∃ p2, projects st2 = <[i := p2]> (projects st) ∧
          TestrailProject.id p2 = TestrailProject.id p.
Proof.
  intros Hst Hp. unfold _add_test_result, setup_test_run.
  case_bool_decide as Hrun; unfold_M; simpl.
  - assert (Hold : ∀ k, in_scope api k →
              (requests k (TestrailProject.id p) (calls st)
               ≤ if k is case_fetch then allowance k p else 0)%nat).
    { intros k Hk. pose proof (proj2 Hst i p k Hp Hk) as H.
      destruct k; [done|..]; unfold allowance, cached in H;
        rewrite Hrun in H;
        by rewrite bool_decide_eq_false_2 in H by apply is_Some_None. }
    destruct (get_run_for_branch api _ _ _) as [[found|]|e]; simpl.
    + (* the run exists *)
      intros [= <- <-]. apply (consistent_result st _ _ i p).
      * eapply (bounded_after allowance _ st _ i p
                  (TestrailProject.set_test_run (Some found) p)
                  [get_run_for_branch_call (TestrailProject.id p)
                     (branch_name st);
                   create_result_call (run_id found) case_id code comment
                     elapsed]);
          [done|done|done|done|simpl; by rewrite <- app_assoc|no_request
          |done|].
        intros k Hk. pose proof (Hold k Hk) as H.
        destruct k; count_requests; unfold allowance, cached in *; simpl;
          rewrite ?bool_decide_eq_true_2 by done; lia.
      * by eexists.
    + (* the run is created *)
      destruct (create_run api _ _ _ _) as [created|e]; simpl;
        intros [= <- <-].
      * apply (consistent_result st _ _ i p).
        -- eapply (bounded_after allowance _ st _ i p
                    (TestrailProject.set_test_run (Some created)
                       (TestrailProject.set_test_run None p))
                    [get_run_for_branch_call (TestrailProject.id p)
                       (branch_name st);
                     create_run_call (TestrailProject.id p)
                       (TestrailProject.suite_id p) (branch_name st);
                     create_result_call (run_id created) case_id code
                       comment elapsed]);
            [done|done|simpl; by rewrite list_insert_insert_eq|done
            |simpl; by rewrite <- !app_assoc|no_request|done|].
          intros k Hk. pose proof (Hold k Hk) as H.
          destruct k; count_requests; unfold allowance, cached in *; simpl;
            rewrite ?bool_decide_eq_true_2 by done; lia.
        -- eexists. simpl. by rewrite list_insert_insert_eq.
      * split; [|done].
        eapply (bounded_after allowance _ st _ i p
                  (TestrailProject.set_test_run None p)
                  [get_run_for_branch_call (TestrailProject.id p)
                     (branch_name st);
                   create_run_call (TestrailProject.id p)
                     (TestrailProject.suite_id p) (branch_name st)]);
          [done|done|done|done|simpl; by rewrite <- !app_assoc|no_request
          |apply allowance_le_1|].
        intros k Hk. pose proof (Hold k Hk) as H.
        pose proof (allowance_le_1 k p).
        destruct k; count_requests; lia.
    + (* the lookup fails *)
      intros [= <- <-]. split; [|done].
      eapply (bounded_after allowance _ st _ i p p
                [get_run_for_branch_call (TestrailProject.id p)
                   (branch_name st)]);
        [done|done|by rewrite list_insert_id|done|done|no_request
        |apply allowance_le_1|].
      intros k Hk. pose proof (Hold k Hk) as H.
      pose proof (allowance_le_1 k p).
      destruct k; count_requests; lia.
  - destruct (TestrailProject.test_run p) as [known|] eqn:Hknown; [|done].
    intros [= <- <-]. apply (consistent_result st _ _ i p).
    + eapply (bounded_after allowance _ st _ i p p
                [create_result_call (run_id known) case_id code comment
                   elapsed]);
        [done|done|by rewrite list_insert_id|done|done|no_request|done|].
      intros k Hk. pose proof (proj2 Hst i p k Hp Hk) as H.
      destruct k; count_requests; lia.
    + exists p. by rewrite list_insert_id.
Qed.

Lemma increment_keeps (key : string) (st : TestrailReporter) :
  projects (increment key st).1 = projects st ∧
  calls (increment key st).1 = calls st.
Proof. unfold increment. by destruct (case_summary st !! key). Qed.

Lemma increment_consistent (key : string) (st : TestrailReporter) (i : nat)
    (p : TestrailProject.t) :
  caches_consistent api st → projects st !! i = Some p →
  keeps_consistent api st i p (increment key st).
Proof.
  intros Hst Hp. destruct (increment_keeps key st) as [Hps Hcalls].
  assert (caches_consistent api (increment key st).1)
    by (by eapply bounded_same).
  split; [by apply consistent_at_most_once|].
  intros _. split; [done|]. exists p. by rewrite Hps, list_insert_id.
Qed.

Lemma report_case_consistent (scenario : Scenario.t) (case_id : string)
    (i : nat) (p : TestrailProject.t) (st : TestrailReporter) :
  caches_consistent api st → projects st !! i = Some p →
  keeps_consistent api st i p (report_case api scenario case_id i p st).
Proof.
  intros Hst Hp. unfold report_case.
  assert (Hstop : ∀ e, keeps_consistent api st i p (st, Raise e)).
  { intros e. split; [by apply consistent_at_most_once | done]. }
  case_bool_decide; [|by apply increment_consistent].
  unfold mbind at 1, M_mbind, M_bind, lift.
  destruct (getitem STATUS_MAPS (Scenario.status scenario)) as [code|e];
    [|apply Hstop].
  case_bool_decide; [by apply increment_consistent|].
  unfold mbind at 1, M_mbind, M_bind, self, lift.
  destruct (_can_generate_test_run_for_branch p (branch_name st))
    as [[|]|e]; simpl; [|by apply increment_consistent|apply Hstop].
  unfold mbind, M_mbind, M_bind. cbn [negb]. cbv beta iota.
  destruct (_add_test_result api i p case_id code
              (_buid_comment_for_scenario scenario)
              (pretty (int_of (Scenario.duration scenario)) +:+ "s") st)
    as [st2 r] eqn:Hadd.
  apply add_test_result_consistent in Hadd as [Honce Hok]; [|done..].
  destruct r as [ok|e]; cbv beta iota; [|by split].
  destruct (Hok ok eq_refl) as (Hst2 & p2 & Hps2 & Hid2).
  assert (Hp2 : projects st2 !! i = Some p2).
  { rewrite Hps2. apply list_lookup_insert_eq. by eapply lookup_lt_Some. }
  assert (Hend : ∀ out, keeps_consistent api st2 i p2 out →
                        keeps_consistent api st i p out).
  { intros out [H1 H2]. split; [done|]. intros Hout.
    destruct (H2 Hout) as (H3 & p' & Hps' & Hid'). split; [done|].
    exists p'. rewrite Hps', Hps2, list_insert_insert_eq. split; congruence. }
  apply Hend. destruct ok.
  - by apply increment_consistent.
  - unfold append_failed_case. split.
    + apply consistent_at_most_once. by eapply bounded_same.
    + intros _. split; [by eapply bounded_same|].
      exists p2. simpl. by rewrite list_insert_id.
Qed.

Lemma process_case_consistent (scenario : Scenario.t) (case_id : string)
    (i : nat) (p : TestrailProject.t) (st : TestrailReporter) :
  caches_consistent api st → projects st !! i = Some p →
  keeps_consistent api st i p (process_case api scenario case_id i p st).
Proof.
  intros Hst Hp. unfold process_case. unfold mbind, M_mbind, M_bind.
  destruct (with_cases api i p st) as [st1 r] eqn:Hload.
  apply with_cases_consistent in Hload as [Honce Hok]; [|done..].
  destruct r as [p1|e]; cbv beta iota; [|by split].
  destruct (Hok p1 eq_refl) as (Hst1 & Hps1 & Hid1).
  assert (Hp1 : projects st1 !! i = Some p1).
  { rewrite Hps1. apply list_lookup_insert_eq. by eapply lookup_lt_Some. }
  destruct (report_case_consistent scenario case_id i p1 st1 Hst1 Hp1)
    as [H1 H2].
  split; [done|]. intros Hout.
  destruct (H2 Hout) as (H3 & p' & Hps' & Hid'). split; [done|].
  exists p'. rewrite Hps', Hps1, list_insert_insert_eq. split; congruence.
Qed.

Lemma for_each_project_consistent (scenario : Scenario.t) (case_id : string)
    (ps : list TestrailProject.t) (i : nat) (st : TestrailReporter) :
  caches_consistent api st → drop i (projects st) = ps →
  requested_at_most_once api
    (for_each_project (process_case api scenario case_id) i ps st).1 ∧
  ((for_each_project (process_case api scenario case_id) i ps st).2 = Ok tt →
   caches_consistent api
     (for_each_project (process_case api scenario case_id) i ps st).1).
Proof.
  revert i st. induction ps as [|p ps IH]; intros i st Hst Hdrop; simpl.
  - split; [by apply consistent_at_most_once | done].
  - assert (Hp : projects st !! i = Some p).
    { rewrite <- (Nat.add_0_r i), <- lookup_drop, Hdrop. done. }
    destruct (process_case_consistent scenario case_id i p st Hst Hp)
      as [H1 H2].
    unfold mbind, M_mbind, M_bind.
    destruct (process_case api scenario case_id i p st) as [st1 [[]|e]];
      simpl in *; [|by split].
    destruct (H2 eq_refl) as (Hst1 & p' & Hps1 & _).
    apply IH; [done|].
    rewrite Hps1, drop_insert_lt by lia.
    rewrite (drop_S _ _ _ Hp) in Hdrop. by injection Hdrop.
Qed.

Lemma process_scenario_consistent (scenario : Scenario.t)
    (st : TestrailReporter) :
  caches_consistent api st →
  requested_at_most_once api (process_scenario api scenario st).1 ∧
  ((process_scenario api scenario st).2 = Ok tt →
   caches_consistent api (process_scenario api scenario st).1).
Proof.
  unfold process_scenario.
  generalize (Scenario.tags scenario ++ Scenario.feature_tags scenario)%list.
  intros tags. revert st.
  induction tags as [|tag tags IH]; intros st Hst; simpl.
  - split; [by apply consistent_at_most_once | done].
  - unfold mbind, M_mbind, M_bind.
    assert (Htag :
      requested_at_most_once api (process_tag api scenario tag st).1 ∧
      ((process_tag api scenario tag st).2 = Ok tt →
       caches_consistent api (process_tag api scenario tag st).1)).
    { unfold process_tag.
      destruct (String.prefix CASE_TAG_PREFIX tag).
      - unfold mbind, M_mbind, M_bind, self.
        by apply for_each_project_consistent.
      - split; [by apply consistent_at_most_once | done]. }
    destruct (process_tag api scenario tag st) as [st1 [[]|e]];
      simpl in *; [|by destruct Htag].
    apply IH. by apply Htag.
Qed.

(** In a session that starts from a consistent state (such as the state
    after [__init__], see [init_consistent]), whatever scenarios are
    processed and whether or not the session is ended by an exception:
    the run of every project is looked up at most once and created at
    most once, and, if no suite of the service is empty, the cases of
    every project are fetched at most once. *)
Theorem session_requests_at_most_once (scenarios : list Scenario.t)
    (st : TestrailReporter) :
  caches_consistent api st →
  requested_at_most_once api (process_scenario_outline api scenarios st).1 ∧
  ((process_scenario_outline api scenarios st).2 = Ok tt →
   caches_consistent api (process_scenario_outline api scenarios st).1).
Proof.
  unfold process_scenario_outline. revert st.
  induction scenarios as [|scenario scenarios IH]; intros st Hst; simpl.
  - split; [by apply consistent_at_most_once | done].
  - unfold mbind, M_mbind, M_bind.
    pose proof (process_scenario_consistent scenario st Hst) as Hsc.
    destruct (process_scenario api scenario st) as [st1 [[]|e]];
      simpl in *; [|by destruct Hsc].
    apply IH. by apply Hsc.
Qed.

(** The reporter that [__init__] builds is consistent when the project
    ids of the configuration are distinct. *)
Lemma init_consistent (branch : string) (config : list project_config)
    (st : TestrailReporter) :
  NoDup (config_id <$> config) →
  init branch config = Ok st →
  caches_consistent api st.
Proof.
  intros Hids. unfold init, _load_projects_from_config.
  case_bool_decide; [done|]. simpl. intros [= <-]. split; simpl.
  - rewrite <- list_fmap_compose.
    erewrite list_fmap_ext; [exact Hids|]. by intros ? c _.
  - intros j q k _ _. unfold requests. simpl. lia.
Qed.

(** The same, read off the trace of a session that starts with
    [__init__]. *)
Corollary configured_session_at_most_once (branch : string)
    (config : list project_config) (scenarios : list Scenario.t)
    (st0 : TestrailReporter) (j : nat) (q : TestrailProject.t) :
  NoDup (config_id <$> config) →
  init branch config = Ok st0 →
  projects (process_scenario_outline api scenarios st0).1 !! j = Some q →
  (requests run_lookup (TestrailProject.id q)
     (calls (process_scenario_outline api scenarios st0).1) ≤ 1)%nat ∧
  (requests run_creation (TestrailProject.id q)
     (calls (process_scenario_outline api scenarios st0).1) ≤ 1)%nat ∧
  (suites_nonempty api →
   (requests case_fetch (TestrailProject.id q)
      (calls (process_scenario_outline api scenarios st0).1) ≤ 1)%nat).
Proof.
  intros Hids Hinit Hq.
  pose proof (init_consistent branch config st0 Hids Hinit) as Hst0.
  destruct (session_requests_at_most_once scenarios st0 Hst0) as [[_ H] _].
  split_and!.
  - by apply (H j q run_lookup).
  - by apply (H j q run_creation).
  - intros Hsuites. by apply (H j q case_fetch).
Qed.
End process_facts.

Lemma untagged_scenario_is_ignored_witness :
  process_scenario sample_client untagged_scenario sample_reporter
  = (sample_reporter, Ok tt).
Proof.
  apply untagged_scenario_is_ignored.
  repeat constructor.
Defined.

(** ** The properties on the sample session *)


Example sample_is_submitted :
  calls (process_scenario sample_client sample_scenario sample_reporter).1
  = [get_cases_call 1 2; get_run_for_branch_call 1 "master";
     create_run_call 1 2 "master";
     create_result_call 7 "100" 1
       (_buid_comment_for_scenario sample_scenario) "3s"] ∧
  count_of "passed"
    (process_scenario sample_client sample_scenario sample_reporter).1 = 1.
Proof. vm_compute. done. Qed.




Example twice_tagged_is_submitted_twice :
  calls
    (process_scenario sample_client twice_tagged_scenario sample_reporter).1
  = [get_cases_call 1 2; get_run_for_branch_call 1 "master";
     create_run_call 1 2 "master";
     create_result_call 7 "100" 1
       (_buid_comment_for_scenario twice_tagged_scenario) "3s";
     create_result_call 7 "100" 1
       (_buid_comment_for_scenario twice_tagged_scenario) "3s"] ∧
  count_of "passed"
    (process_scenario sample_client twice_tagged_scenario sample_reporter).1
  = 2.
Proof. vm_compute. done. Qed.

(** An exception of the client ends the processing: the request is in
    the trace and nothing is recorded. *)
Example service_error_propagates :
  (process_scenario failing_client sample_scenario sample_reporter).2
  = Raise (ServiceError "unreachable") ∧
  calls (process_scenario failing_client sample_scenario sample_reporter).1
  = [get_cases_call 1 2] ∧
  outcomes_recorded
    (process_scenario failing_client sample_scenario sample_reporter).1 = 0.
Proof. vm_compute. done. Qed.

(** ** Fetching the cases of a suite that has none *)

(** C2 fails on the code.  The cases of a project are fetched whenever its
    [cases] dictionary is empty, and the dictionary is still empty after
    a fetch that returned no case: two scenarios that carry a case tag
    make the reporter fetch the cases of the same project twice. *)
Theorem empty_suite_is_fetched_again :
  calls
    (process_scenario_outline empty_suite_client
       [sample_scenario; sample_scenario] sample_reporter).1
  = [get_cases_call 1 2; get_cases_call 1 2] ∧
  calls
    (process_scenario_outline sample_client
       [sample_scenario; sample_scenario] sample_reporter).1
  = [get_cases_call 1 2; get_run_for_branch_call 1 "master";
     create_run_call 1 2 "master";
     create_result_call 7 "100" 1
       (_buid_comment_for_scenario sample_scenario) "3s";
     create_result_call 7 "100" 1
       (_buid_comment_for_scenario sample_scenario) "3s"].
Proof. vm_compute. done. Qed.
